(** * smart_doc_ocr: the field extractor and the image normaliser

    A shallow embedding of [app/layout_parser/layout_parser.py],
    [app/preprocess/image_preprocessor.py] and the receipt schema of
    [app/main.py], with the properties of the field extractor
    (first match wins, schema completeness, two-group reassembly, absence)
    and of the resize step of the normaliser.

    Conventions.
    - A Python [str] is a [string]; its characters are the code points
      below 256.
    - [None] is [None] of an [option]; a value typed [Optional[str]] is an
      [option string].
    - A Python [dict] is an association list in insertion order
      ([PyDict.dict]); a well-formed one has no duplicate key.
    - A call that may raise returns a [result]: [Ok v] or [Raise e].
    - The regular-expression library is an interface ([RegexEngine]); the
      extractor is written and verified against the interface, and
      [Sre.engine] implements it for the pattern syntax the schemas of the
      repository are written in.
    - OpenCV is used on shapes only ([Cv2]), and a [float] is a binary64
      number ([PyFloat]). *)

From Stdlib Require Import String Ascii List ZArith Bool Lia PeanoNat.
From Stdlib Require Import SpecFloat.
Import ListNotations.

Local Open Scope string_scope.

(** ** Exceptions and results *)

Inductive exn : Type :=
| re_error            (* re.error: the pattern does not compile *)
| IndexError          (* match.group(n) for a group the pattern lacks *)
| AttributeError      (* a method called on None *)
| ZeroDivisionError   (* width / 0 *)
| OverflowError       (* int() of an infinite float *)
| ValueError          (* int() of a NaN *)
| FileNotFoundError   (* load_image on a path cv2.imread cannot read *)
| cv2_error.          (* an assertion of OpenCV failed *)

Inductive result (A : Type) : Type :=
| Ok (a : A)
| Raise (e : exn).

Arguments Ok {A} a.
Arguments Raise {A} e.

Definition bind {A B : Type} (m : result A) (f : A -> result B) : result B :=
  match m with
  | Ok a => f a
  | Raise e => Raise e
  end.

Declare Scope result_scope.
Delimit Scope result_scope with result.
Notation "x <- m ;; k" := (bind m (fun x => k))
  (at level 61, m at next level, right associativity) : result_scope.

(** ** Python strings *)

Module PyStr.

(** [str.isspace] on one character, for code points below 256:
    TAB..CR, FS..US, SPACE, NEL (0x85) and NBSP (0xA0). *)
Definition isspace (c : ascii) : bool :=
  let n := nat_of_ascii c in
  (((9 <=? n) && (n <=? 13)) || ((28 <=? n) && (n <=? 32))
   || (n =? 133) || (n =? 160))%nat.

(** [str.isdecimal] on one character, which is what [\d] tests. *)
Definition isdigit (c : ascii) : bool :=
  let n := nat_of_ascii c in ((48 <=? n) && (n <=? 57))%nat.

(** The lower-case mapping of a code point below 256: A..Z and the
    Latin-1 capitals 0xC0..0xDE (0xD7, the multiplication sign, apart). *)
Definition lower (c : ascii) : ascii :=
  let n := nat_of_ascii c in
  if (((65 <=? n) && (n <=? 90))
      || ((192 <=? n) && (n <=? 222) && negb (n =? 215)))%nat
  then ascii_of_nat (n + 32) else c.

Fixpoint lstrip (s : string) : string :=
  match s with
  | EmptyString => EmptyString
  | String c s' => if isspace c then lstrip s' else s
  end.

Fixpoint rstrip (s : string) : string :=
  match s with
  | EmptyString => EmptyString
  | String c s' =>
      match rstrip s' with
      | EmptyString => if isspace c then EmptyString else String c EmptyString
      | r => String c r
      end
  end.

(** [s.strip()] *)
Definition strip (s : string) : string := rstrip (lstrip s).

(** [s.replace(old, new)] for a needle [old] of one character, the only
    form the extractor calls. *)
Fixpoint replace (old : ascii) (new : string) (s : string) : string :=
  match s with
  | EmptyString => EmptyString
  | String c s' =>
      if Ascii.eqb c old then new ++ replace old new s'
      else String c (replace old new s')
  end.

End PyStr.

(** ** Python dictionaries, in insertion order *)

Module PyDict.

Definition dict (V : Type) : Type := list (string * V).

Definition keys {V} (d : dict V) : list string := map fst d.

(** [d.get(k)]: [None] when the key is missing. *)
Fixpoint get {V} (d : dict V) (k : string) : option V :=
  match d with
  | [] => None
  | (k', v) :: d' => if String.eqb k' k then Some v else get d' k
  end.

(** [d[k] = v]: an existing key keeps its place, a new one goes last. *)
Fixpoint set {V} (d : dict V) (k : string) (v : V) : dict V :=
  match d with
  | [] => [(k, v)]
  | (k', v') :: d' =>
      if String.eqb k' k then (k', v) :: d' else (k', v') :: set d' k v
  end.

(** The invariant of a dictionary: no key twice. *)
Definition wf {V} (d : dict V) : Prop := NoDup (keys d).

End PyDict.

(** ** The interface to the regular-expression library *)

(** What [re.search(pattern, text, re.IGNORECASE)] does: it raises
    [re.error], returns [None], or returns a match object.  Of the match
    object the extractor reads [groups()], the tuple of the pattern's
    capture groups 1..n, where a group that took no part in the match is
    [None]. *)
Inductive search_result : Type :=
| ReError
| NoMatch
| Match (groups : list (option string)).

Class RegexEngine : Type :=
  { re_search : string -> string -> search_result }.

(** ** An engine for the patterns of the repository

    [Sre] implements [RegexEngine] the way CPython's [re] treats a [str]
    pattern under [re.IGNORECASE]: [parse] follows [sre_parse] (what
    closes a sequence, which item a quantifier repeats, how a character
    set reads [-] and a leading bracket, how groups are numbered) and
    [search] is the backtracking search: leftmost start first, alternatives
    left to right, a greedy repeat longest first and a lazy one shortest
    first.

    The syntax covered: literals, [.], the escapes [\d \D \s \S], the
    control escapes [\n \t \r \f \v \a], an escaped character that is no
    ASCII letter or digit, character sets with ranges and negation,
    capturing groups, [(?:...)], [|], and the quantifiers [* + ? {m} {m,}
    {,n} {m,n}] with their lazy forms.  For a pattern outside it (anchors,
    [\w], [\b], back-references, look-around, flags, named groups) the
    engine answers [ReError], which is right only where CPython rejects the
    pattern too: [covered] tells the patterns that are inside, and a
    statement about what the engine finds is a statement about those.
    Every pattern of [default_patterns] and of [receipt_patterns] is
    inside. *)

Module Sre.

Local Open Scope char_scope.

Inductive category : Type := Digit | Space.

Inductive cset_item : Type :=
| CChar (c : ascii)
| CRange (lo hi : ascii)
| CCat (negated : bool) (k : category).

Inductive regex : Type :=
| Eps
| Lit (c : ascii)
| Dot
| In (negate : bool) (items : list cset_item)
| Seq (r1 r2 : regex)
| Alt (r1 r2 : regex)
| Repeat (lo : nat) (hi : option nat) (greedy : bool) (r : regex)
| Group (n : nat) (r : regex).

(** *** Parsing *)

Definition is_ascii_alnum (c : ascii) : bool :=
  let n := nat_of_ascii c in
  (((48 <=? n) && (n <=? 57)) || ((65 <=? n) && (n <=? 90))
   || ((97 <=? n) && (n <=? 122)))%nat.

(** The character after a backslash, outside and inside a set. *)
Definition escape (c : ascii) : option cset_item :=
  match c with
  | "d" => Some (CCat false Digit)
  | "D" => Some (CCat true Digit)
  | "s" => Some (CCat false Space)
  | "S" => Some (CCat true Space)
  | "n" => Some (CChar "010")
  | "t" => Some (CChar "009")
  | "r" => Some (CChar "013")
  | "f" => Some (CChar "012")
  | "v" => Some (CChar "011")
  | "a" => Some (CChar "007")
  | _ => if is_ascii_alnum c then None else Some (CChar c)
  end.

Definition atom_of_item (i : cset_item) : regex :=
  match i with
  | CChar c => Lit c
  | _ => In false [i]
  end.

(** One member of a set: a character or an escape. *)
Definition class_member (src : string) : option (cset_item * string) :=
  match src with
  | String "\" (String c rest) =>
      match escape c with
      | Some i => Some (i, rest)
      | None => None
      end
  | String "\" EmptyString => None
  | String c rest => Some (CChar c, rest)
  | EmptyString => None
  end.

(** The body of a set, after the bracket and the optional caret; [acc]
    holds the members read so far, last first. *)
Fixpoint parse_class (fuel : nat) (src : string) (acc : list cset_item)
  : option (list cset_item * string) :=
  match fuel with
  | O => None
  | S fuel' =>
      match src, acc with
      | EmptyString, _ => None
      | String "]" rest, _ :: _ => Some (rev acc, rest)
      | _, _ =>
          match class_member src with
          | None => None
          | Some (code1, String "-" rest) =>
              match rest with
              | EmptyString => None
              | String "]" rest' => Some (rev (CChar "-" :: code1 :: acc), rest')
              | _ =>
                  match code1, class_member rest with
                  | CChar lo, Some (CChar hi, rest') =>
                      if (nat_of_ascii hi <? nat_of_ascii lo)%nat then None
                      else parse_class fuel' rest' (CRange lo hi :: acc)
                  | _, _ => None
                  end
              end
          | Some (code1, rest) => parse_class fuel' rest (code1 :: acc)
          end
      end
  end.

Fixpoint digits (src : string) (acc : option nat) : option nat * string :=
  match src with
  | String c rest =>
      if PyStr.isdigit c then
        let d := (nat_of_ascii c - 48)%nat in
        digits rest (Some (match acc with Some a => 10 * a + d | None => d end)%nat)
      else (acc, src)
  | EmptyString => (acc, src)
  end.

(** The text after an opening brace: [Some (min, max, rest)] when it is
    a repeat count, [None] when the brace is a literal. *)
Definition braces (src : string) : option (nat * option nat * string) :=
  match src with
  | String "}" _ => None
  | _ =>
      let '(lo, src1) := digits src None in
      let '(hi, src2) :=
        match src1 with
        | String "," src1' => digits src1' None
        | _ => (lo, src1)
        end in
      match src2 with
      | String "}" rest =>
          Some (match lo with Some n => n | None => O end, hi, rest)
      | _ => None
      end
  end.

(** An item of a sequence, and whether it is a repeat (which may not be
    repeated again). *)
Definition item : Type := regex * bool.

Fixpoint seq_of (items : list item) : regex :=
  match items with
  | [] => Eps
  | [(r, _)] => r
  | (r, _) :: rest => Seq r (seq_of rest)
  end.

(** Apply a quantifier to the last item read; [src] is the text after
    the quantifier, where a [?] makes it lazy. *)
Definition quantify (lo : nat) (hi : option nat) (acc : list item)
  (src : string) : option (list item * string) :=
  let bad_count :=
    match hi with
    | Some h => (h <? lo)%nat
    | None => false
    end in
  match acc with
  | [] => None
  | (_, true) :: _ => None
  | (r, false) :: acc' =>
      if bad_count then None else
      match src with
      | String "?" rest => Some ((Repeat lo hi false r, true) :: acc', rest)
      | String "+" _ => None
      | _ => Some ((Repeat lo hi true r, true) :: acc', src)
      end
  end.

(** [parse_sub] reads alternatives up to a closing parenthesis or the
    end; [parse_seq] reads one alternative, [acc] holding its items last
    first and [g] counting the groups opened so far. *)
Fixpoint parse_sub (fuel : nat) (src : string) (g : nat)
  : option (regex * string * nat) :=
  match fuel with
  | O => None
  | S fuel' =>
      match parse_seq fuel' src g [] with
      | Some (r1, String "|" rest, g1) =>
          match parse_sub fuel' rest g1 with
          | Some (r2, rest', g2) => Some (Alt r1 r2, rest', g2)
          | None => None
          end
      | other => other
      end
  end

with parse_seq (fuel : nat) (src : string) (g : nat) (acc : list item)
  : option (regex * string * nat) :=
  match fuel with
  | O => None
  | S fuel' =>
      match src with
      | EmptyString | String "|" _ | String ")" _ =>
          Some (seq_of (rev acc), src, g)
      | String "\" EmptyString => None
      | String "\" (String c rest) =>
          match escape c with
          | Some i => parse_seq fuel' rest g ((atom_of_item i, false) :: acc)
          | None => None
          end
      | String "[" rest =>
          let '(negate, body) :=
            match rest with
            | String "^" rest' => (true, rest')
            | _ => (false, rest)
            end in
          match parse_class (S (String.length body)) body [] with
          | Some (items, rest') =>
              parse_seq fuel' rest' g ((In negate items, false) :: acc)
          | None => None
          end
      | String "*" rest =>
          match quantify 0 None acc rest with
          | Some (acc', rest') => parse_seq fuel' rest' g acc'
          | None => None
          end
      | String "+" rest =>
          match quantify 1 None acc rest with
          | Some (acc', rest') => parse_seq fuel' rest' g acc'
          | None => None
          end
      | String "?" rest =>
          match quantify 0 (Some 1%nat) acc rest with
          | Some (acc', rest') => parse_seq fuel' rest' g acc'
          | None => None
          end
      | String "{" rest =>
          match braces rest with
          | None => parse_seq fuel' rest g ((Lit "{", false) :: acc)
          | Some (lo, hi, rest1) =>
              match quantify lo hi acc rest1 with
              | Some (acc', rest') => parse_seq fuel' rest' g acc'
              | None => None
              end
          end
      | String "." rest => parse_seq fuel' rest g ((Dot, false) :: acc)
      | String "(" (String "?" (String ":" rest)) =>
          match parse_sub fuel' rest g with
          | Some (r, String ")" rest', g') =>
              parse_seq fuel' rest' g' ((r, false) :: acc)
          | _ => None
          end
      | String "(" (String "?" _) => None
      | String "(" rest =>
          match parse_sub fuel' rest (S g) with
          | Some (r, String ")" rest', g') =>
              parse_seq fuel' rest' g' ((Group (S g) r, false) :: acc)
          | _ => None
          end
      | String "^" _ | String "$" _ => None
      | String c rest => parse_seq fuel' rest g ((Lit c, false) :: acc)
      end
  end.

(** The pattern as a whole: its expression and its number of groups.
    Text left over is a closing parenthesis that closes nothing. *)
Definition parse (pattern : string) : option (regex * nat) :=
  match parse_sub (2 * String.length pattern + 2) pattern 0 with
  | Some (r, EmptyString, g) => Some (r, g)
  | _ => None
  end.

(** *** Matching *)

(** The groups closed so far, the latest binding of a number first. *)
Definition caps : Type := list (nat * string).

Fixpoint cap (c : caps) (n : nat) : option string :=
  match c with
  | [] => None
  | (n', s) :: c' => if Nat.eqb n' n then Some s else cap c' n
  end.

(** The first [n] characters of [s]. *)
Fixpoint take (n : nat) (s : string) : string :=
  match n, s with
  | S n', String c s' => String c (take n' s')
  | _, _ => EmptyString
  end.

Definition in_category (negated : bool) (k : category) (c : ascii) : bool :=
  xorb negated
    match k with
    | Digit => PyStr.isdigit c
    | Space => PyStr.isspace c
    end.

(** Under IGNORECASE a set is lowered when it is compiled and the
    character of the text is lowered when it is tested: [lc] is the
    lowered character. *)
Definition item_has (lc : ascii) (i : cset_item) : bool :=
  match i with
  | CChar c => Ascii.eqb (PyStr.lower c) lc
  | CRange lo hi =>
      existsb (fun n => Ascii.eqb (PyStr.lower (ascii_of_nat n)) lc)
        (seq (nat_of_ascii lo) (S (nat_of_ascii hi) - nat_of_ascii lo))
  | CCat negated k => in_category negated k lc
  end.

(** Does the expression match one character, and which? *)
Definition accepts (r : regex) (c : ascii) : bool :=
  match r with
  | Lit l => Ascii.eqb (PyStr.lower l) (PyStr.lower c)
  | Dot => negb (Ascii.eqb c "010")
  | In negate items => xorb negate (existsb (item_has (PyStr.lower c)) items)
  | _ => false
  end.

Definition orelse (a : option caps) (b : unit -> option caps) : option caps :=
  match a with
  | Some c => Some c
  | None => b tt
  end.

Definition below (n : nat) (hi : option nat) : bool :=
  match hi with
  | Some h => (n <? h)%nat
  | None => true
  end.

(** A continuation of the matcher: what is left to match after an
    expression, given the rest of the text and the groups closed so far;
    [None] makes the caller try its next choice. *)
Definition cont : Type := string -> caps -> option caps.

(** Where the repeat stands against [last], the place where its latest
    iteration beyond the minimum began (a place in the text being given by
    the length of what is left of it). *)
Definition stalled (last : option nat) (s : string) : bool :=
  match last with
  | Some p => Nat.eqb p (String.length s)
  | None => false
  end.

(** The iterations of a repeat whose body is matched by [body]: [n]
    iterations are done and [s] is the text left.  Below the minimum the
    body is matched again and nothing else is tried.  From the minimum
    on, a greedy repeat tries one more iteration before it tries to stop,
    a lazy one the other way round; one more iteration is tried only
    below the maximum and only if the text has moved since the latest
    iteration beyond the minimum began: after an iteration that consumed
    nothing no further one is started, and the other ways of matching
    that iteration stay open.  [fuel] bounds the iterations; [lo] plus
    the length of the text plus two is never used up. *)
Fixpoint repeat_loop (body : cont -> cont) (lo : nat) (hi : option nat)
  (greedy : bool) (k : cont) (fuel n : nat) (last : option nat)
  (s : string) (c : caps) {struct fuel} : option caps :=
  match fuel with
  | O => None
  | S fuel' =>
      if (n <? lo)%nat then
        body (repeat_loop body lo hi greedy k fuel' (S n) last) s c
      else
        let more := fun _ : unit =>
          if below n hi && negb (stalled last s) then
            body
              (repeat_loop body lo hi greedy k fuel' (S n)
                 (Some (String.length s)))
              s c
          else None in
        let stop := fun _ : unit => k s c in
        if greedy then orelse (more tt) stop else orelse (stop tt) more
  end.

(** [mtch r k s c]: match [r] at the head of [s] with groups [c], then
    hand the rest of the text to the continuation [k]. *)
Fixpoint mtch (r : regex) (k : cont) (s : string) (c : caps) {struct r}
  : option caps :=
  match r with
  | Eps => k s c
  | Lit _ | Dot | In _ _ =>
      match s with
      | String x s' => if accepts r x then k s' c else None
      | EmptyString => None
      end
  | Seq r1 r2 => mtch r1 (mtch r2 k) s c
  | Alt r1 r2 => orelse (mtch r1 k s c) (fun _ => mtch r2 k s c)
  | Group n r' =>
      mtch r'
        (fun s' c' =>
           k s' ((n, take (String.length s - String.length s') s) :: c'))
        s c
  | Repeat lo hi greedy r' =>
      repeat_loop (mtch r') lo hi greedy k
        (lo + String.length s + 2)%nat O None s c
  end.

(** The leftmost position where the expression matches. *)
Fixpoint search_from (r : regex) (s : string) : option caps :=
  match mtch r (fun _ c => Some c) s [] with
  | Some c => Some c
  | None =>
      match s with
      | String _ s' => search_from r s'
      | EmptyString => None
      end
  end.

Definition search (pattern text : string) : search_result :=
  match parse pattern with
  | None => ReError
  | Some (r, ngroups) =>
      match search_from r text with
      | None => NoMatch
      | Some c => Match (map (cap c) (seq 1 ngroups))
      end
  end.

Definition engine : RegexEngine := {| re_search := search |}.

(** Every match of the expression closes group [n]: the group lies on
    each path through it. *)
Fixpoint always_sets (n : nat) (r : regex) : bool :=
  match r with
  | Group m r' => Nat.eqb m n || always_sets n r'
  | Seq r1 r2 => always_sets n r1 || always_sets n r2
  | Alt r1 r2 => always_sets n r1 && always_sets n r2
  | Repeat lo _ _ r' => (1 <=? lo)%nat && always_sets n r'
  | _ => false
  end.

(** A rule the extractor can always resolve: the pattern compiles, has a
    group 1 that every match closes, and, when it has exactly two groups,
    a group 2 that every match closes. *)
Definition safe_rule (pattern : string) : bool :=
  match parse pattern with
  | Some (r, ngroups) =>
      (1 <=? ngroups)%nat && always_sets 1 r
      && (negb (Nat.eqb ngroups 2) || always_sets 2 r)
  | None => false
  end.

Definition safe_schema (s : list (string * list string)) : bool :=
  forallb (fun entry => forallb safe_rule (snd entry)) s.

(** A rule written in the part of the syntax that [parse] reads. *)
Definition covered (pattern : string) : bool :=
  match parse pattern with
  | Some _ => true
  | None => false
  end.

Definition covered_schema (s : list (string * list string)) : bool :=
  forallb (fun entry => forallb covered (snd entry)) s.

End Sre.

(** ** layout_parser.py *)

Module LayoutParser.

Import PyDict.
Local Open Scope result_scope.

(** The attribute [field_patterns]. *)
Definition schema : Type := dict (list string).

(** The extraction result, [Dict[str, Optional[str]]]. *)
Definition fields : Type := dict (option string).

(** The schema [__init__] installs when it is given none. *)
Definition default_patterns : schema :=
  [ ("invoice_number",
      [ "Invoice\s*No[:\-]?\s*([A-Z0-9\-]+)";
        "Inv\s*#[:\-]?\s*([A-Z0-9\-]+)" ]);
    ("date",
      [ "Date[:\-]?\s*(\d{1,2}[-/]\d{1,2}[-/]\d{2,4})";
        "(\d{2,4}[-/]\d{1,2}[-/]\d{1,4})" ]);
    ("total",
      [ "Total\s*Amount[:\-]?\s*\$?([\d,]+\.\d{2})";
        "Grand\s*Total[:\-]?\s*\$?([\d,]+\.\d{2})";
        "Total[:\-]?\s*\$?([\d,]+\.\d{2})" ]) ].

(** [field_patterns or {...}]: [None] and the empty dictionary are both
    falsy, so both select the default schema. *)
Definition __init__ (field_patterns : option schema) : schema :=
  match field_patterns with
  | None | Some [] => default_patterns
  | Some d => d
  end.

(** [match.group(n)], n >= 1. *)
Definition group (groups : list (option string)) (n : nat)
  : result (option string) :=
  match nth_error groups (n - 1) with
  | Some g => Ok g
  | None => Raise IndexError
  end.

(** A method call on [match.group(n)]: on [None] it raises. *)
Definition on_str {A} (g : option string) (f : string -> A) : result A :=
  match g with
  | Some s => Ok (f s)
  | None => Raise AttributeError
  end.

(** What the body of the [if match:] returns. *)
Definition resolve (groups : list (option string)) : result (option string) :=
  if Nat.eqb (length groups) 2 then
    g1 <- group groups 1 ;;
    a <- on_str g1 (fun s => PyStr.strip (PyStr.replace "," "" s)) ;;
    g2 <- group groups 2 ;;
    b <- on_str g2 PyStr.strip ;;
    Ok (Some (a ++ "." ++ b))
  else
    g1 <- group groups 1 ;;
    a <- on_str g1 PyStr.strip ;;
    Ok (Some a).

Section WithEngine.
Context {E : RegexEngine}.

Fixpoint _extract_by_patterns (text : string) (patterns : list string)
  : result (option string) :=
  match patterns with
  | [] => Ok None
  | pattern :: rest =>
      match re_search pattern text with
      | ReError => Raise re_error
      | NoMatch => _extract_by_patterns text rest
      | Match groups => resolve groups
      end
  end.

(** The loop of [extract_fields] over [field_patterns.items()], with
    the dictionary [results] built so far. *)
Fixpoint extract_loop (text : string) (items : schema) (results : fields)
  : result fields :=
  match items with
  | [] => Ok results
  | (field_name, patterns) :: rest =>
      value <- _extract_by_patterns text patterns ;;
      extract_loop text rest (set results field_name value)
  end.

Definition extract_fields (self : schema) (text : string) : result fields :=
  extract_loop text self [].

End WithEngine.

Definition add_field (self : schema) (field_name : string)
  (patterns : list string) : schema :=
  set self field_name patterns.

(** The schemas a parser object can hold: what [__init__] installs,
    changed by any number of [add_field] calls. *)
Inductive reachable : schema -> Prop :=
| reach_init (fp : option schema) :
    match fp with Some d => wf d | None => True end ->
    reachable (__init__ fp)
| reach_add (s : schema) (name : string) (ps : list string) :
    reachable s -> reachable (add_field s name ps).

End LayoutParser.

(** ** Python floats

    A [float] is a binary64 number, a [spec_float] at precision 53 with
    round-to-nearest-even.  The integers converted here are image
    dimensions, far below 2^53, so [float(n)] is exact and [a / b] on two
    integers is the correctly rounded quotient. *)

Module PyFloat.

Local Open Scope Z_scope.

Definition prec : Z := 53.
Definition emax : Z := 1024.

(** [float(n)] *)
Definition of_int (n : Z) : spec_float := binary_normalize prec emax n 0 false.

(** [a / b] on two integers. *)
Definition truediv (a b : Z) : result spec_float :=
  if b =? 0 then Raise ZeroDivisionError
  else Ok (SFdiv prec emax (of_int a) (of_int b)).

(** [n * x] for an integer [n] and a float [x]. *)
Definition mul_int (n : Z) (x : spec_float) : spec_float :=
  SFmul prec emax (of_int n) x.

(** [int(x)]: the integer part, towards zero. *)
Definition to_int (x : spec_float) : result Z :=
  match x with
  | S754_zero _ => Ok 0
  | S754_infinity _ => Raise OverflowError
  | S754_nan => Raise ValueError
  | S754_finite sign m e =>
      let magnitude :=
        if 0 <=? e then Z.shiftl (Z.pos m) e else Z.shiftr (Z.pos m) (- e) in
      Ok (if sign then - magnitude else magnitude)
  end.

End PyFloat.

(** ** What the normaliser uses of OpenCV

    An image is its shape: the claims about the normaliser concern the
    dimensions of its output and whether a call raises, which OpenCV
    decides from the shape alone for the 8-bit arrays [cv2.imread] and the
    PDF rasteriser produce.  Each function below states the checks the
    library makes on entry and the shape it returns. *)

Module Cv2.

Local Open Scope Z_scope.

(** An image as the code holds it, an array of 8-bit unsigned values,
    by its [image.shape]: (height, width, channels), a two-dimensional
    array having one channel.  The values of the pixels are left out. *)
Record ndarray : Type :=
  { height : Z; width : Z; channels : Z }.

Definition empty (w h : Z) : bool := (w <=? 0) || (h <=? 0).

(** The largest C [int]: the two components of a [cv::Size] are of that
    type. *)
Definition INT_MAX : Z := 2147483647.

(** Whether a Python integer converts to a C [int]. *)
Definition fits_int (z : Z) : bool := (- INT_MAX - 1 <=? z) && (z <=? INT_MAX).

(** [cv2.resize(src, (w, h), interpolation=cv2.INTER_AREA)].  The
    target size must convert to a [cv::Size], two C [int]s, or the call
    is refused before OpenCV runs.  The source must not be empty; an
    empty target size is recomputed from the scale factors fx and fy,
    which default to 0 and fail the assertion that they are positive.
    The memory the output takes is assumed to be there. *)
Definition resize (src : ndarray) (dsize : Z * Z) : result ndarray :=
  let '(w, h) := dsize in
  if negb (fits_int w && fits_int h) then Raise cv2_error
  else if empty (width src) (height src) then Raise cv2_error
  else if empty w h then Raise cv2_error
  else Ok {| height := h; width := w; channels := channels src |}.

(** [cv2.cvtColor(src, cv2.COLOR_BGR2GRAY)]: three or four channels in. *)
Definition cvtColor_BGR2GRAY (src : ndarray) : result ndarray :=
  if empty (width src) (height src) then Raise cv2_error
  else if (channels src =? 3) || (channels src =? 4)
  then Ok {| height := height src; width := width src; channels := 1 |}
  else Raise cv2_error.

(** [cv2.GaussianBlur(src, (5, 5), 0)] *)
Definition GaussianBlur_5x5 (src : ndarray) : result ndarray :=
  if empty (width src) (height src) then Raise cv2_error else Ok src.

(** [cv2.adaptiveThreshold(src, 255, ADAPTIVE_THRESH_GAUSSIAN_C,
    THRESH_BINARY, 11, 2)]: a single 8-bit channel in. *)
Definition adaptiveThreshold_11_2 (src : ndarray) : result ndarray :=
  if channels src =? 1 then Ok src else Raise cv2_error.

End Cv2.

(** ** image_preprocessor.py *)

Module ImagePreprocessor.

Import Cv2.
Local Open Scope Z_scope.
Local Open Scope result_scope.

(** [Union[str, np.ndarray]] *)
Inductive image_input : Type :=
| Path (p : string)
| Array (a : ndarray).

(** The attribute [resize_width], [Optional[int]]. *)
Definition self : Type := option Z.

Definition __init__ (resize_width : option Z) : self := resize_width.

Definition _resize (image : ndarray) (width : Z) : result ndarray :=
  let h := Cv2.height image in
  let w := Cv2.width image in
  ratio <- PyFloat.truediv width w ;;
  new_height <- PyFloat.to_int (PyFloat.mul_int h ratio) ;;
  Cv2.resize image (width, new_height).

Section WithFiles.
(** [cv2.imread]: the image stored at a path, [None] when there is
    none it can decode. *)
Variable imread : string -> option ndarray.

Definition load_image (input : image_input) : result ndarray :=
  match input with
  | Path p =>
      match imread p with
      | None => Raise FileNotFoundError
      | Some img => Ok img
      end
  | Array a => Ok a
  end.

Definition preprocess (resize_width : self) (input : image_input)
  : result ndarray :=
  img <- load_image input ;;
  (* [if self.resize_width:] holds for an integer other than 0 *)
  img <- match resize_width with
         | Some width => if width =? 0 then Ok img else _resize img width
         | None => Ok img
         end ;;
  gray <- cvtColor_BGR2GRAY img ;;
  denoised <- GaussianBlur_5x5 gray ;;
  binary <- adaptiveThreshold_11_2 denoised ;;
  Ok binary.

End WithFiles.

End ImagePreprocessor.

(** ** main.py *)

Module Main.

Definition preprocessor : ImagePreprocessor.self :=
  ImagePreprocessor.__init__ (Some 800%Z).

Definition receipt_patterns : LayoutParser.schema :=
  [ ("id",
      [ "#(\d+)";
        "Receipt\s*[:\-]?\s*#?(\d+)" ]);
    ("date",
      [ "(\d{1,2}[-/]\d{1,2}[-/]\d{2,4})";
        "(\d{4}[-/]\d{1,2}[-/]\d{1,2})" ]);
    ("total",
      [ "TOTAL\s*[:\-]?\s*\$?\s*([\d,]+)\s*[.,]\s*(\d{2})";
        "total\s*[:\-]?\s*\$?\s*([\d,]+)\s*[.,]\s*(\d{2})";
        "Total\s*Amount\s*[:\-]?\s*\$?\s*([\d,]+)\s*[.,]\s*(\d{2})";
        "Total.*?\$?\s*([\d,]+)[.,]\s*(\d{2})" ]);
    ("change",
      [ "Change\s*Due\s*[:\-]?\s*\$?([\d,]+\.\d{2})";
        "Change\s*[:\-]?\s*\$?([\d,]+\.\d{2})";
        "change\s*[:\-]?\s*\$?([\d,]+\.\d{2})" ]) ].

Definition parser : LayoutParser.schema :=
  LayoutParser.__init__ (Some receipt_patterns).

(** The character LF, which a string literal cannot hold escaped. *)
Definition LF : string := String "010" EmptyString.

End Main.

(** ** Python values and exceptions of the remaining code *)

(** [s.lower()] on a string of code points below 256, where the lower
    case of a character is one character. *)
Fixpoint str_lower (s : string) : string :=
  match s with
  | EmptyString => EmptyString
  | String c s' => String (PyStr.lower c) (str_lower s')
  end.

(** [s.endswith(suffix)] *)
Fixpoint endswith (s suffix : string) : bool :=
  String.eqb s suffix
  || match s with
     | EmptyString => false
     | String _ s' => endswith s' suffix
     end.

Module Py.

(** The exceptions met outside the extractor and the normaliser: those of
    [exn], [KeyError], the exception classes of pytesseract and pdf2image
    (by name), and the [HTTPException] of the web framework, a subclass
    of [Exception] like the others. *)
Inductive exception : Type :=
| Builtin (e : exn)
| KeyError
| LibraryError (name : string)
| HTTPException (status_code : Z).

Inductive outcome (A : Type) : Type :=
| Return (a : A)
| Throw (e : exception).

Arguments Return {A} a.
Arguments Throw {A} e.

Definition obind {A B : Type} (m : outcome A) (f : A -> outcome B)
  : outcome B :=
  match m with
  | Return a => f a
  | Throw e => Throw e
  end.

Definition lift {A : Type} (r : result A) : outcome A :=
  match r with
  | Ok a => Return a
  | Raise e => Throw (Builtin e)
  end.

(** A cell of the table pytesseract returns: a string, or a number. *)
Inductive value : Type :=
| VStr (s : string)
| VInt (z : Z)
| VFloat (f : spec_float).

(** [d[k]] *)
Definition getitem {V : Type} (d : PyDict.dict V) (k : string) : outcome V :=
  match PyDict.get d k with
  | Some v => Return v
  | None => Throw KeyError
  end.

(** [l[i]] for an index from [range(len(...))] *)
Definition index {A : Type} (l : list A) (i : nat) : outcome A :=
  match nth_error l i with
  | Some a => Return a
  | None => Throw (Builtin IndexError)
  end.

(** [v.strip()]: a number has no such method. *)
Definition strip (v : value) : outcome string :=
  match v with
  | VStr s => Return (PyStr.strip s)
  | _ => Throw (Builtin AttributeError)
  end.

End Py.

Declare Scope outcome_scope.
Delimit Scope outcome_scope with outcome.
Notation "x <- m ;; k" := (Py.obind m (fun x => k))
  (at level 61, m at next level, right associativity) : outcome_scope.

(** ** ocr_engine.py *)

Module OCREngine.

Import Py.
Local Open Scope outcome_scope.

Record self : Type := { lang : string; config : string }.

(** [config if config else "--oem 3 --psm 6"]: [None] and the empty
    string are both falsy. *)
Definition __init__ (lang : string) (config : option string) : self :=
  {| lang := lang;
     config := match config with
               | Some (String c rest) => String c rest
               | _ => "--oem 3 --psm 6"
               end |}.

(** One entry of [extract_with_boxes]: the keys "text", "conf" and "box",
    the last with the keys "x", "y", "w" and "h". *)
Record box : Type := { x : Z; y : Z; w : Z; h : Z }.
Record token : Type := { text : value; conf : Z; box_of : box }.

Section WithTesseract.
(** [cv2.imread], [pytesseract.image_to_string] and
    [pytesseract.image_to_data] with [Output.DICT], a dictionary from
    column names to columns; and [int] on a string, [None] for the
    strings it rejects with [ValueError]. *)
Variable imread : string -> option Cv2.ndarray.
Variable image_to_string : Cv2.ndarray -> string -> string -> outcome string.
Variable image_to_data :
  Cv2.ndarray -> string -> string -> outcome (PyDict.dict (list value)).
Variable int_of_str : string -> option Z.

(** [int(v)] *)
Definition int (v : value) : outcome Z :=
  match v with
  | VInt z => Return z
  | VFloat f => lift (PyFloat.to_int f)
  | VStr s =>
      match int_of_str s with
      | Some z => Return z
      | None => Throw (Builtin ValueError)
      end
  end.

Definition _load_image (image : ImagePreprocessor.image_input)
  : outcome Cv2.ndarray :=
  match image with
  | ImagePreprocessor.Path p =>
      match imread p with
      | None => Throw (Builtin FileNotFoundError)
      | Some img => Return img
      end
  | ImagePreprocessor.Array a => Return a
  end.

Definition extract_text (self : self) (image : ImagePreprocessor.image_input)
  : outcome string :=
  image <- _load_image image ;;
  image_to_string image (lang self) (config self).

(** [int(data[column][i])] *)
Definition int_cell (data : PyDict.dict (list value)) (column : string)
  (i : nat) : outcome Z :=
  col <- getitem data column ;;
  v <- index col i ;;
  int v.

(** The dictionary appended for row [i]. *)
Definition entry (data : PyDict.dict (list value)) (i : nat) : outcome token :=
  col <- getitem data "text" ;;
  t <- index col i ;;
  c <- int_cell data "conf" i ;;
  left <- int_cell data "left" i ;;
  top <- int_cell data "top" i ;;
  width <- int_cell data "width" i ;;
  height <- int_cell data "height" i ;;
  Return {| text := t; conf := c;
            box_of := {| x := left; y := top; w := width; h := height |} |}.

(** The loop over [range(n_boxes)]. *)
Fixpoint boxes_loop (data : PyDict.dict (list value)) (indices : list nat)
  (results : list token) : outcome (list token) :=
  match indices with
  | [] => Return results
  | i :: rest =>
      col <- getitem data "text" ;;
      t <- index col i ;;
      stripped <- strip t ;;
      match stripped with
      | EmptyString => boxes_loop data rest results
      | _ =>
          e <- entry data i ;;
          boxes_loop data rest (results ++ [e])
      end
  end.

Definition extract_with_boxes (self : self)
  (image : ImagePreprocessor.image_input) : outcome (list token) :=
  image <- _load_image image ;;
  data <- image_to_data image (lang self) (config self) ;;
  col <- getitem data "text" ;;
  boxes_loop data (seq 0 (length col)) [].

End WithTesseract.

End OCREngine.

(** ** main.py: the decoder and the endpoint *)

Module Endpoint.

Import Py.
Local Open Scope outcome_scope.
Local Open Scope Z_scope.

(** The upload: its file name, which may be missing, and its bytes. *)
Record UploadFile : Type := { filename : option string; content : string }.

(** The content of the JSON response. *)
Record response : Type :=
  { r_filename : option string;
    r_fields : LayoutParser.fields;
    r_raw_text : string }.

(** [ocr_engine = OCREngine()] *)
Definition ocr_engine : OCREngine.self := OCREngine.__init__ "eng" None.

(** [cv2.cvtColor(img, cv2.COLOR_RGB2BGR)]: three or four channels in,
    three out. *)
Definition cvtColor_RGB2BGR (src : Cv2.ndarray) : result Cv2.ndarray :=
  if Cv2.empty (Cv2.width src) (Cv2.height src) then Raise cv2_error
  else if (Cv2.channels src =? 3) || (Cv2.channels src =? 4)
  then Ok {| Cv2.height := Cv2.height src; Cv2.width := Cv2.width src;
             Cv2.channels := 3 |}
  else Raise cv2_error.

(** [except Exception as e: raise HTTPException(status_code=..., ...)] *)
Definition reraise_as {A : Type} (status_code : Z) (body : outcome A)
  : outcome A :=
  match body with
  | Return a => Return a
  | Throw _ => Throw (HTTPException status_code)
  end.

Section WithServices.
Context {E : RegexEngine}.
(** [pdf2image.convert_from_bytes(..., dpi=300)], each page as the array
    [np.array] makes of it; the copy of the upload to a temporary file
    followed by [cv2.imread]; [cv2.imread] on a path; and
    [pytesseract.image_to_string]. *)
Variable convert_from_bytes : string -> outcome (list Cv2.ndarray).
Variable imread_upload : string -> outcome (option Cv2.ndarray).
Variable imread : string -> option Cv2.ndarray.
Variable image_to_string : Cv2.ndarray -> string -> string -> outcome string.

Definition read_image (file : UploadFile) : outcome Cv2.ndarray :=
  reraise_as 400
    (name <- match filename file with
             | Some name => Return name
             | None => Throw (Builtin AttributeError)
             end ;;
     if endswith (str_lower name) ".pdf" then
       pages <- convert_from_bytes (content file) ;;
       match pages with
       | [] => Throw (Builtin ValueError)
       | page :: _ => lift (cvtColor_RGB2BGR page)
       end
     else
       img <- imread_upload (content file) ;;
       match img with
       | None => Throw (Builtin ValueError)
       | Some img => Return img
       end).

Definition extract (file : UploadFile) : outcome response :=
  reraise_as 500
    (image <- read_image file ;;
     preprocessed <- lift (ImagePreprocessor.preprocess imread
                             Main.preprocessor
                             (ImagePreprocessor.Array image)) ;;
     text <- OCREngine.extract_text imread image_to_string ocr_engine
               (ImagePreprocessor.Array preprocessed) ;;
     fields <- lift (LayoutParser.extract_fields Main.parser text) ;;
     Return {| r_filename := filename file;
               r_fields := fields;
               r_raw_text := text |}).

End WithServices.

End Endpoint.

(** ** Vocabulary of the properties *)

Section Vocabulary.
Import PyDict LayoutParser.
Context {E : RegexEngine}.

(** A rule that does not match the text: [re.search] returns [None]. *)
Definition fails (text p : string) : Prop := re_search p text = NoMatch.

(** The field-by-field reading of [extract_fields]: the values in the
    order of the schema. *)
Fixpoint extract_each (text : string) (items : schema) : result fields :=
  match items with
  | [] => Ok []
  | (f, ps) :: rest =>
      match _extract_by_patterns text ps, extract_each text rest with
      | Ok v, Ok vs => Ok ((f, v) :: vs)
      | Raise e, _ => Raise e
      | _, Raise e => Raise e
      end
  end.

(** Group [n] of a match took part in it. *)
Definition captured (groups : list (option string)) (n : nat) : Prop :=
  exists g, nth_error groups (n - 1) = Some (Some g).

(** A match the extractor can turn into a value: group 1 exists and
    took part, and so did group 2 when the rule has exactly two. *)
Definition usable (groups : list (option string)) : Prop :=
  captured groups 1 /\ (length groups = 2 -> captured groups 2).

(** The rules of one field go through on a text: each rule tried before
    the first match compiles, and the first match, if any, is usable. *)
Fixpoint goes_through (text : string) (patterns : list string) : Prop :=
  match patterns with
  | [] => True
  | p :: rest =>
      match re_search p text with
      | ReError => False
      | NoMatch => goes_through text rest
      | Match groups => usable groups
      end
  end.

End Vocabulary.

(** Group [n] is closed in [c]. *)
Definition has (n : nat) (c : Sre.caps) : Prop := Sre.cap c n <> None.

(** A continuation of the matcher that does not lose group [n], and one
    that always ends with it closed. *)
Definition keeps (n : nat) (k : Sre.cont) : Prop :=
  forall s c c', has n c -> k s c = Some c' -> has n c'.

Definition yields (n : nat) (k : Sre.cont) : Prop :=
  forall s c c', k s c = Some c' -> has n c'.

(** A matcher that hands its continuation nothing longer than the text it
    was given: it cannot tell apart two continuations that agree there. *)
Definition local (body : Sre.cont -> Sre.cont) : Prop :=
  forall (k1 k2 : Sre.cont) s c,
    (forall s' c', (String.length s' <= String.length s)%nat ->
                   k1 s' c' = k2 s' c') ->
    body k1 s c = body k2 s c.

(** A string of whitespace only, the empty one included. *)
Fixpoint blank (s : string) : bool :=
  match s with
  | EmptyString => true
  | String c s' => PyStr.isspace c && blank s'
  end.


(** The shape the normaliser ends with: a single channel, with the
    height and the width of its input after the optional resize. *)
Definition binary_of (h w : Z) : Cv2.ndarray :=
  {| Cv2.height := h; Cv2.width := w; Cv2.channels := 1 |}.

(** The text of the end-to-end scenario. *)
Definition scenario_text : string :=
  "Receipt: #9876" ++ Main.LF ++ "Date: 2025-07-15" ++ Main.LF
  ++ "Total: $123,45" ++ Main.LF ++ "Change Due: $5.00".

(** What the extractor returns on the scenario. *)
Definition scenario_fields : LayoutParser.fields :=
  [ ("id", Some "9876"); ("date", Some "25-07-15");
    ("total", Some "123.45"); ("change", Some "5.00") ].

(** ** Vocabulary of the further properties *)

(** A value with no whitespace at either end. *)
Definition trimmed (v : string) : Prop := PyStr.strip v = v.

(** A string that does not begin with whitespace. *)
Definition no_lead (t : string) : Prop :=
  match t with
  | EmptyString => True
  | String c _ => PyStr.isspace c = false
  end.

(** The string holds the character. *)
Fixpoint has_char (c : ascii) (s : string) : bool :=
  match s with
  | EmptyString => false
  | String x s' => Ascii.eqb x c || has_char c s'
  end.

(** A result map with every present value lowered. *)
Definition lower_fields (r : LayoutParser.fields) : LayoutParser.fields :=
  map (fun entry => (fst entry, option_map str_lower (snd entry))) r.

Definition lower_result (m : result LayoutParser.fields)
  : result LayoutParser.fields :=
  match m with
  | Ok r => Ok (lower_fields r)
  | Raise e => Raise e
  end.

(** A row of the table of pytesseract, in the columns the engine reads. *)
Record row : Type :=
  { row_text : string; row_conf : Z;
    row_left : Z; row_top : Z; row_width : Z; row_height : Z }.

(** The dictionary holds the rows, column by column, the numbers as
    integers (the form [image_to_data] gives them with [Output.DICT]). *)
Definition is_table (data : PyDict.dict (list Py.value)) (rows : list row)
  : Prop :=
  PyDict.get data "text" = Some (map (fun r => Py.VStr (row_text r)) rows)
  /\ PyDict.get data "conf" = Some (map (fun r => Py.VInt (row_conf r)) rows)
  /\ PyDict.get data "left" = Some (map (fun r => Py.VInt (row_left r)) rows)
  /\ PyDict.get data "top" = Some (map (fun r => Py.VInt (row_top r)) rows)
  /\ PyDict.get data "width"
     = Some (map (fun r => Py.VInt (row_width r)) rows)
  /\ PyDict.get data "height"
     = Some (map (fun r => Py.VInt (row_height r)) rows).

(** A row with something to read in it. *)
Definition printed (r : row) : bool := negb (blank (row_text r)).

Definition token_of_row (r : row) : OCREngine.token :=
  {| OCREngine.text := Py.VStr (row_text r);
     OCREngine.conf := row_conf r;
     OCREngine.box_of :=
       {| OCREngine.x := row_left r; OCREngine.y := row_top r;
          OCREngine.w := row_width r; OCREngine.h := row_height r |} |}.

(** An entry whose text is a string with something to read in it. *)
Definition legible (t : OCREngine.token) : Prop :=
  exists s, OCREngine.text t = Py.VStr s /\ blank s = false.

(** A table of three rows: a word, a blank cell and a word kept with its
    spaces; and the page it is read from. *)
Definition sample_rows : list row :=
  [ {| row_text := "Total"; row_conf := 96; row_left := 10; row_top := 20;
       row_width := 50; row_height := 12 |};
    {| row_text := "  "; row_conf := -1; row_left := 0; row_top := 0;
       row_width := 800; row_height := 480 |};
    {| row_text := " 5.00 "; row_conf := 91; row_left := 70; row_top := 20;
       row_width := 40; row_height := 12 |} ].

Definition sample_data : PyDict.dict (list Py.value) :=
  [ ("left", map (fun r => Py.VInt (row_left r)) sample_rows);
    ("top", map (fun r => Py.VInt (row_top r)) sample_rows);
    ("width", map (fun r => Py.VInt (row_width r)) sample_rows);
    ("height", map (fun r => Py.VInt (row_height r)) sample_rows);
    ("conf", map (fun r => Py.VInt (row_conf r)) sample_rows);
    ("text", map (fun r => Py.VStr (row_text r)) sample_rows) ].

Definition sample_page : Cv2.ndarray :=
  {| Cv2.height := 480; Cv2.width := 800; Cv2.channels := 1 |}.

(** For the examples: a photograph 1000 wide and 600 high, and an upload
    named as an image. *)
Definition sample_photo : Cv2.ndarray :=
  {| Cv2.height := 600; Cv2.width := 1000; Cv2.channels := 3 |}.

Definition sample_upload : Endpoint.UploadFile :=
  {| Endpoint.filename := Some "receipt.jpg"; Endpoint.content := "" |}.

(** The groups of a match, lowered. *)
Definition lower_caps (c : Sre.caps) : Sre.caps :=
  map (fun entry => (fst entry, str_lower (snd entry))) c.

Definition lower_match (m : search_result) : search_result :=
  match m with
  | Match groups => Match (map (option_map str_lower) groups)
  | other => other
  end.

(** Two continuations of the matcher, the second doing on the lowered
    text what the first does on the text. *)
Definition lowered (k k' : Sre.cont) : Prop :=
  forall s c, k' (str_lower s) (lower_caps c) = option_map lower_caps (k s c).

(** * Properties *)

Local Open Scope list_scope.

(** ** Dictionaries *)

Section DictFacts.
Import PyDict.
Context {V : Type}.
Implicit Types (d : dict V) (k : string) (v : V).

Lemma keys_set d k v :
  forall k', In k' (keys (set d k v)) <-> In k' (keys d) \/ k' = k.
Proof.
  induction d as [|[k0 v0] d IH]; intros k'; simpl.
  - intuition.
  - destruct (String.eqb_spec k0 k) as [->|Hne]; simpl.
    + intuition.
    + rewrite IH. intuition.
Qed.

Lemma set_fresh d k v : ~ In k (keys d) -> set d k v = d ++ [(k, v)].
Proof.
  induction d as [|[k0 v0] d IH]; simpl; intros Hk; [reflexivity|].
  destruct (String.eqb_spec k0 k) as [->|Hne].
  - exfalso. auto.
  - f_equal. apply IH. auto.
Qed.

Lemma keys_set_present d k v : In k (keys d) -> keys (set d k v) = keys d.
Proof.
  induction d as [|[k0 v0] d IH]; simpl; intros Hk; [contradiction|].
  destruct (String.eqb_spec k0 k) as [->|Hne]; simpl; [reflexivity|].
  f_equal. apply IH. destruct Hk; [contradiction|assumption].
Qed.

Lemma get_In_keys d k v : get d k = Some v -> In k (keys d).
Proof.
  induction d as [|[k0 v0] d IH]; simpl; [discriminate|].
  destruct (String.eqb_spec k0 k) as [->|Hne]; auto.
Qed.

Lemma wf_set d k v : wf d -> wf (set d k v).
Proof.
  unfold wf. intros Hd.
  destruct (in_dec string_dec k (keys d)) as [Hin|Hout].
  - now rewrite keys_set_present.
  - rewrite (set_fresh _ _ _ Hout). unfold keys. rewrite map_app. simpl.
    apply NoDup_app; [assumption | repeat constructor; simpl; tauto | ].
    intros a Ha [<-|[]]. auto.
Qed.

End DictFacts.

(** ** The field extractor, for every engine *)

Section ExtractorFacts.
Import PyDict LayoutParser.
Context {E : RegexEngine}.
Implicit Types (s : schema) (r : fields) (text f : string)
  (ps pre post : list string).

(** The rules ahead of the first match are skipped. *)
Lemma skip_failing text pre ps :
  Forall (fails text) pre ->
  _extract_by_patterns text (pre ++ ps) = _extract_by_patterns text ps.
Proof.
  induction 1 as [|p pre Hp _ IH]; simpl; [reflexivity|].
  unfold fails in Hp. now rewrite Hp.
Qed.

(** The first rule to match decides, whatever follows it. *)
Lemma first_match_decides text pre p post groups :
  Forall (fails text) pre ->
  re_search p text = Match groups ->
  _extract_by_patterns text (pre ++ p :: post) = resolve groups.
Proof.
  intros Hpre Hp. rewrite skip_failing by assumption. simpl. now rewrite Hp.
Qed.

Lemma extract_loop_each text items :
  forall acc,
    NoDup (keys acc ++ keys items) ->
    extract_loop text items acc =
      match extract_each text items with
      | Ok vs => Ok (acc ++ vs)
      | Raise e => Raise e
      end.
Proof.
  induction items as [|[f ps] items IH]; intros acc Hnd; simpl.
  - now rewrite app_nil_r.
  - destruct (_extract_by_patterns text ps) as [v|e]; simpl; [|reflexivity].
    simpl in Hnd.
    assert (Hf : ~ In f (keys acc)).
    { apply NoDup_remove_2 in Hnd. intros Hin. apply Hnd, in_or_app. auto. }
    rewrite (set_fresh _ _ _ Hf), IH.
    + destruct (extract_each text items); [|reflexivity].
      now rewrite <- app_assoc.
    + unfold keys in *. rewrite map_app, <- app_assoc. exact Hnd.
Qed.

Lemma extract_fields_each s text :
  wf s -> extract_fields s text = extract_each text s.
Proof.
  intros Hs. unfold extract_fields. rewrite extract_loop_each by exact Hs.
  now destruct (extract_each text s).
Qed.

Lemma extract_each_keys text items r :
  extract_each text items = Ok r -> keys r = keys items.
Proof.
  revert r. induction items as [|[f ps] items IH]; simpl; intros r Hr.
  - now inversion Hr.
  - destruct (_extract_by_patterns text ps); [|discriminate].
    destruct (extract_each text items); [|discriminate].
    inversion Hr; subst. simpl. f_equal. now apply IH.
Qed.

Lemma extract_each_get text items r f ps :
  extract_each text items = Ok r ->
  get items f = Some ps ->
  exists v, _extract_by_patterns text ps = Ok v /\ get r f = Some v.
Proof.
  revert r. induction items as [|[f0 ps0] items IH]; simpl; intros r Hr Hget.
  - discriminate.
  - destruct (_extract_by_patterns text ps0) as [v0|] eqn:H0; [|discriminate].
    destruct (extract_each text items) as [vs|]; [|discriminate].
    inversion Hr; subst; simpl.
    destruct (String.eqb_spec f0 f) as [->|Hne].
    + inversion Hget; subst. eauto.
    + now apply IH.
Qed.

(** The value of a field in the result is what its own rules give. *)
Lemma extract_fields_get s text r f ps :
  wf s ->
  extract_fields s text = Ok r ->
  get s f = Some ps ->
  exists v, _extract_by_patterns text ps = Ok v /\ get r f = Some v.
Proof.
  intros Hs Hr. rewrite extract_fields_each in Hr by exact Hs.
  now apply extract_each_get.
Qed.

Lemma extract_loop_keys text items :
  forall acc r,
    extract_loop text items acc = Ok r ->
    forall k, In k (keys r) <-> In k (keys acc) \/ In k (keys items).
Proof.
  induction items as [|[f ps] items IH]; simpl; intros acc r Hr k.
  - inversion Hr; subst. tauto.
  - destruct (_extract_by_patterns text ps) as [v|]; simpl in Hr; [|discriminate].
    rewrite (IH _ _ Hr), keys_set. intuition.
Qed.

(** Replacing the rules of a field by rules that give the same value
    leaves the whole result as it was. *)
Lemma extract_each_set text items f ps ps' :
  get items f = Some ps ->
  _extract_by_patterns text ps' = _extract_by_patterns text ps ->
  extract_each text (set items f ps') = extract_each text items.
Proof.
  induction items as [|[f0 ps0] items IH]; simpl; intros Hget Heq.
  - discriminate.
  - destruct (String.eqb_spec f0 f) as [->|Hne]; simpl.
    + inversion Hget; subst. now rewrite Heq.
    + now rewrite IH.
Qed.

End ExtractorFacts.

Section ExtractorClaims.
Import PyDict LayoutParser.
Context {E : RegexEngine}.
Implicit Types (s : schema) (r : fields) (text f : string)
  (ps pre post : list string).

Lemma resolve_usable groups :
  usable groups <-> exists v, resolve groups = Ok v.
Proof.
  unfold usable, captured, resolve, group, on_str.
  destruct groups as [|[g1|] [|[g2|] [|g3 rest]]]; simpl; split;
    try (intros _; eauto; fail);
    try (intros [[g Hg] H2]; try discriminate;
         try (destruct (H2 eq_refl) as [g' Hg']; discriminate); fail);
    try (intros [v Hv]; discriminate).
  all: intros _; split; eauto; intros; try discriminate; eauto.
Qed.

Lemma goes_through_returns text ps :
  goes_through text ps <-> exists v, _extract_by_patterns text ps = Ok v.
Proof.
  induction ps as [|p ps IH]; simpl.
  - split; eauto.
  - destruct (re_search p text) as [| |groups].
    + split; [contradiction | intros [v Hv]; discriminate].
    + exact IH.
    + apply resolve_usable.
Qed.

Lemma extract_loop_returns text items :
  forall acc,
    (forall f ps, In (f, ps) items -> goes_through text ps) <->
    exists r, extract_loop text items acc = Ok r.
Proof.
  induction items as [|[f ps] items IH]; intros acc; simpl.
  - split; [eauto | intros _ ? ? []].
  - split.
    + intros H.
      destruct (proj1 (goes_through_returns text ps) (H f ps (or_introl eq_refl)))
        as [v ->]. simpl.
      apply IH. intros f' ps' Hin. apply (H f' ps'). now right.
    + intros [r Hr] f' ps' [Heq|Hin].
      * inversion Heq; subst. apply goes_through_returns.
        destruct (_extract_by_patterns text ps') as [v|]; [eauto|discriminate].
      * destruct (_extract_by_patterns text ps) as [v|]; [|discriminate].
        simpl in Hr. revert f' ps' Hin. apply (IH (set acc f v)). eauto.
Qed.

(** Every schema a parser object can hold is a well-formed dictionary. *)
Lemma reachable_wf s : reachable s -> wf s.
Proof.
  induction 1 as [[[|entry d]|] Hfp|s name ps _ IH].
  - unfold wf. simpl. repeat constructor; simpl; intuition discriminate.
  - exact Hfp.
  - unfold wf. simpl. repeat constructor; simpl; intuition discriminate.
  - now apply wf_set.
Qed.

(** The case of two rules that both match: the second is not looked at. *)
Lemma first_of_two text R1 R2 groups1 groups2 :
  re_search R1 text = Match groups1 ->
  re_search R2 text = Match groups2 ->
  _extract_by_patterns text [R1; R2] = _extract_by_patterns text [R1].
Proof.
  intros H1 _. simpl. now rewrite H1.
Qed.

Lemma strip_blank g : blank g = true -> PyStr.strip g = ""%string.
Proof.
  unfold PyStr.strip. induction g as [|x g IH]; simpl; [reflexivity|].
  intros H. apply andb_true_iff in H. destruct H as [Hx Hg].
  rewrite Hx. now apply IH.
Qed.

(** A rule of one group whose group holds whitespace only resolves to the
    empty string. *)
Lemma blank_group_resolves_empty text pre R post g :
  Forall (fails text) pre ->
  re_search R text = Match [Some g] ->
  blank g = true ->
  _extract_by_patterns text (pre ++ R :: post) = Ok (Some ""%string).
Proof.
  intros Hpre HR Hg. rewrite (first_match_decides _ _ _ post _ Hpre HR).
  unfold resolve, group, on_str. cbn [length Nat.eqb Nat.sub nth_error bind].
  now rewrite (strip_blank g Hg).
Qed.

(** C1. First match wins.  When the rules of a field are
    [pre ++ Ri :: post], no rule of [pre] matches the text and [Ri]
    does, the field resolves to the value [Ri] alone produces, and
    the rules after [Ri] have no influence: with any other rules
    [post'] in their place the result is the same map.  With [pre]
    empty this is the case of the rules [[R1; R2]]. *)
Theorem first_match_wins s text f pre Ri post groups r :
  wf s ->
  get s f = Some (pre ++ Ri :: post) ->
  Forall (fails text) pre ->
  re_search Ri text = Match groups ->
  extract_fields s text = Ok r ->
  exists v,
    get r f = Some v
    /\ _extract_by_patterns text [Ri] = Ok v
    /\ forall post',
         extract_fields (add_field s f (pre ++ Ri :: post')) text = Ok r.
Proof.
  intros Hs Hget Hpre HRi Hr.
  destruct (extract_fields_get _ _ _ _ _ Hs Hr Hget) as [v [Hv Hrf]].
  rewrite (first_match_decides _ _ _ post _ Hpre HRi) in Hv.
  exists v. split; [exact Hrf|]. split.
  - simpl. now rewrite HRi.
  - intros post'. unfold add_field.
    rewrite extract_fields_each by now apply wf_set.
    rewrite (extract_each_set _ _ _ _ _ Hget).
    + now rewrite <- extract_fields_each.
    + now rewrite !(first_match_decides _ _ _ _ _ Hpre HRi).
Qed.

(** C2. Schema completeness.  The map [extract_fields] returns has
    exactly the field names of the schema as its keys, for every text
    and every schema; for a well-formed schema the keys come in the
    order of the schema too. *)
Theorem schema_completeness s text r :
  extract_fields s text = Ok r ->
  (forall k, In k (keys r) <-> In k (keys s))
  /\ (wf s -> keys r = keys s).
Proof.
  intros Hr. split.
  - intros k. unfold extract_fields in Hr.
    rewrite (extract_loop_keys _ _ _ _ Hr). simpl. tauto.
  - intros Hs. rewrite extract_fields_each in Hr by exact Hs.
    now apply extract_each_keys in Hr.
Qed.

(** C3. Two-group reassembly.  When the first rule to match has exactly
    two capture groups, the field resolves to group 1 with its commas (the
    grouping separators) removed and then trimmed, a dot, and group 2
    trimmed: whenever [extract_fields] returns, both groups hold text,
    [g1] and [g2], and that is the value of the field. *)
Theorem two_group_reassembly s text f pre R post groups r :
  wf s ->
  get s f = Some (pre ++ R :: post) ->
  Forall (fails text) pre ->
  re_search R text = Match groups ->
  length groups = 2 ->
  extract_fields s text = Ok r ->
  exists g1 g2,
    groups = [Some g1; Some g2]
    /\ get r f =
         Some (Some (PyStr.strip (PyStr.replace "," "" g1) ++ "."
                     ++ PyStr.strip g2)%string).
Proof.
  intros Hs Hget Hpre HR Hlen Hr.
  destruct (extract_fields_get _ _ _ _ _ Hs Hr Hget) as [v [Hv Hrf]].
  rewrite (first_match_decides _ _ _ post _ Hpre HR) in Hv.
  destruct groups as [|o1 [|o2 [|o3 rest]]]; try discriminate.
  destruct o1 as [g1|]; [|discriminate].
  destruct o2 as [g2|]; [|discriminate].
  exists g1, g2. split; [reflexivity|].
  simpl in Hv. inversion Hv; subst. exact Hrf.
Qed.

(** C4. Absence.  A field whose rule list is empty, or whose rules all
    fail to match the text, is a key of the result and its value is
    [None]: not the empty string, and not a missing key. *)
Theorem absence_marker s text f ps r :
  wf s ->
  get s f = Some ps ->
  Forall (fails text) ps ->
  extract_fields s text = Ok r ->
  get r f = Some None
  /\ In f (keys r)
  /\ get r f <> Some (Some ""%string).
Proof.
  intros Hs Hget Hps Hr.
  destruct (extract_fields_get _ _ _ _ _ Hs Hr Hget) as [v [Hv Hrf]].
  rewrite <- (app_nil_r ps), skip_failing in Hv by assumption.
  simpl in Hv. inversion Hv; subst.
  split; [exact Hrf|]. split.
  - now apply get_In_keys in Hrf.
  - rewrite Hrf. discriminate.
Qed.

(** C5, as amended.  A rule is not checked for its number of groups.
    When the first rule to match has no group, the call raises and no
    value is produced; when it has three groups or more, the field
    resolves to group 1 trimmed, as for a rule of one group, the other
    groups being ignored. *)
Theorem other_group_counts s text f pre R post groups :
  wf s ->
  get s f = Some (pre ++ R :: post) ->
  Forall (fails text) pre ->
  re_search R text = Match groups ->
  length groups <> 1 ->
  length groups <> 2 ->
  (length groups = 0 ->
     _extract_by_patterns text (pre ++ R :: post) = Raise IndexError
     /\ forall r, extract_fields s text <> Ok r)
  /\ (3 <= length groups ->
      forall r,
        extract_fields s text = Ok r ->
        exists g1,
          nth_error groups 0 = Some (Some g1)
          /\ get r f = Some (Some (PyStr.strip g1))).
Proof.
  intros Hs Hget Hpre HR H1 H2.
  pose proof (first_match_decides _ _ _ post _ Hpre HR) as Hdec.
  split.
  - intros H0. destruct groups; [|discriminate].
    split; [exact Hdec|].
    intros r Hr.
    destruct (extract_fields_get _ _ _ _ _ Hs Hr Hget) as [v [Hv _]].
    rewrite Hdec in Hv. discriminate.
  - intros H3 r Hr.
    destruct (extract_fields_get _ _ _ _ _ Hs Hr Hget) as [v [Hv Hrf]].
    rewrite Hdec in Hv. unfold resolve in Hv.
    destruct (Nat.eqb_spec (length groups) 2) as [|_]; [contradiction|].
    destruct groups as [|[g1|] rest]; simpl in H3; [lia| |discriminate].
    exists g1. split; [reflexivity|].
    simpl in Hv. inversion Hv; subst. exact Hrf.
Qed.

End ExtractorClaims.

(** ** The engine: which groups a match closes *)

Section SreFacts.
Import Sre.
Variable n : nat.

Lemma yields_keeps k : yields n k -> keeps n k.
Proof. intros Hk s c c' _. apply Hk. Qed.

Lemma orelse_some a b c' :
  orelse a b = Some c' -> a = Some c' \/ b tt = Some c'.
Proof. destruct a; simpl; auto. Qed.

Section Loop.
Variables (body : cont -> cont) (lo : nat) (hi : option nat) (greedy : bool).
Variable k : cont.

Lemma repeat_loop_cases fuel i last s c c' :
  repeat_loop body lo hi greedy k (S fuel) i last s c = Some c' ->
  ((i < lo)%nat
   /\ body (repeat_loop body lo hi greedy k fuel (S i) last) s c = Some c')
  \/ ((lo <= i)%nat /\ k s c = Some c')
  \/ ((lo <= i)%nat
      /\ body
           (repeat_loop body lo hi greedy k fuel (S i)
              (Some (String.length s))) s c = Some c').
Proof.
  cbn [repeat_loop]. intros H.
  destruct (Nat.ltb_spec i lo) as [Hlt|Hge]; [left; auto|right].
  assert (Hmore :
            (if below i hi && negb (stalled last s)
             then body
                    (repeat_loop body lo hi greedy k fuel (S i)
                       (Some (String.length s))) s c
             else None) = Some c' ->
            body
              (repeat_loop body lo hi greedy k fuel (S i)
                 (Some (String.length s))) s c = Some c').
  { destruct (below i hi && negb (stalled last s)); [auto|discriminate]. }
  destruct greedy; apply orelse_some in H; destruct H; auto.
Qed.

Lemma repeat_loop_keeps :
  (forall k', keeps n k' -> keeps n (body k')) ->
  keeps n k ->
  forall fuel i last, keeps n (repeat_loop body lo hi greedy k fuel i last).
Proof.
  intros Hbody Hk. induction fuel as [|fuel IH]; intros i last s c c' Hc H.
  - discriminate.
  - apply repeat_loop_cases in H. destruct H as [[_ H]|[[_ H]|[_ H]]].
    + exact (Hbody _ (IH _ _) _ _ _ Hc H).
    + exact (Hk _ _ _ Hc H).
    + exact (Hbody _ (IH _ _) _ _ _ Hc H).
Qed.

Lemma repeat_loop_yields :
  (forall k', yields n k' -> yields n (body k')) ->
  yields n k ->
  forall fuel i last, yields n (repeat_loop body lo hi greedy k fuel i last).
Proof.
  intros Hbody Hk. induction fuel as [|fuel IH]; intros i last s c c' H.
  - discriminate.
  - apply repeat_loop_cases in H. destruct H as [[_ H]|[[_ H]|[_ H]]].
    + exact (Hbody _ (IH _ _) _ _ _ H).
    + exact (Hk _ _ _ H).
    + exact (Hbody _ (IH _ _) _ _ _ H).
Qed.

(** With a minimum of one iteration, the first iteration is made. *)
Lemma repeat_loop_first :
  (1 <= lo)%nat ->
  (forall k', keeps n k' -> keeps n (body k')) ->
  (forall k', keeps n k' -> yields n (body k')) ->
  keeps n k ->
  forall fuel last, yields n (repeat_loop body lo hi greedy k fuel 0 last).
Proof.
  intros Hlo Hkeeps Hbody Hk [|fuel] last s c c' H.
  - discriminate.
  - apply repeat_loop_cases in H.
    destruct H as [[_ H]|[[Hle _]|[Hle _]]]; [|lia|lia].
    exact (Hbody _ (repeat_loop_keeps Hkeeps Hk _ _ _) _ _ _ H).
Qed.

End Loop.

Lemma keeps_group k m (sub : string -> string -> string) s :
  keeps n k -> keeps n (fun s' c' => k s' ((m, sub s s') :: c')).
Proof.
  intros Hk s1 c1 c1' Hc1. apply Hk.
  unfold has in *. simpl. now destruct (Nat.eqb m n).
Qed.

Lemma mtch_keeps r : forall k, keeps n k -> keeps n (mtch r k).
Proof.
  induction r as [|l| |neg items|r1 IH1 r2 IH2|r1 IH1 r2 IH2
                 |lo hi greedy r IH|m r IH]; intros k Hk s c c' Hc H;
    cbn [mtch] in H.
  - exact (Hk _ _ _ Hc H).
  - destruct s as [|x s']; [discriminate|].
    destruct (accepts _ x); [exact (Hk _ _ _ Hc H)|discriminate].
  - destruct s as [|x s']; [discriminate|].
    destruct (accepts _ x); [exact (Hk _ _ _ Hc H)|discriminate].
  - destruct s as [|x s']; [discriminate|].
    destruct (accepts _ x); [exact (Hk _ _ _ Hc H)|discriminate].
  - exact (IH1 _ (IH2 _ Hk) _ _ _ Hc H).
  - apply orelse_some in H. destruct H as [H|H].
    + exact (IH1 _ Hk _ _ _ Hc H).
    + exact (IH2 _ Hk _ _ _ Hc H).
  - exact (repeat_loop_keeps _ _ _ _ _ IH Hk _ _ _ _ _ _ Hc H).
  - refine (IH _ _ _ _ _ Hc H).
    exact (keeps_group k m
             (fun s s' => take (String.length s - String.length s') s) s Hk).
Qed.

Lemma mtch_yields r : forall k, yields n k -> yields n (mtch r k).
Proof.
  induction r as [|l| |neg items|r1 IH1 r2 IH2|r1 IH1 r2 IH2
                 |lo hi greedy r IH|m r IH]; intros k Hk s c c' H;
    cbn [mtch] in H.
  - exact (Hk _ _ _ H).
  - destruct s as [|x s']; [discriminate|].
    destruct (accepts _ x); [exact (Hk _ _ _ H)|discriminate].
  - destruct s as [|x s']; [discriminate|].
    destruct (accepts _ x); [exact (Hk _ _ _ H)|discriminate].
  - destruct s as [|x s']; [discriminate|].
    destruct (accepts _ x); [exact (Hk _ _ _ H)|discriminate].
  - exact (IH1 _ (IH2 _ Hk) _ _ _ H).
  - apply orelse_some in H. destruct H as [H|H].
    + exact (IH1 _ Hk _ _ _ H).
    + exact (IH2 _ Hk _ _ _ H).
  - exact (repeat_loop_yields _ _ _ _ _ IH Hk _ _ _ _ _ _ H).
  - refine (IH _ _ _ _ _ H). intros s1 c1 c1'. apply Hk.
Qed.

(** An expression on every path of which group [n] lies closes it in
    every match. *)
Lemma mtch_always_sets r :
  always_sets n r = true -> forall k, keeps n k -> yields n (mtch r k).
Proof.
  induction r as [|l| |neg items|r1 IH1 r2 IH2|r1 IH1 r2 IH2
                 |lo hi greedy r IH|m r IH]; cbn [always_sets]; intros Hsets k Hk;
    try discriminate.
  - intros s c c' H. cbn [mtch] in H.
    apply orb_true_iff in Hsets. destruct Hsets as [H1|H2].
    + exact (IH1 H1 _ (mtch_keeps r2 _ Hk) _ _ _ H).
    + exact (mtch_yields r1 _ (IH2 H2 _ Hk) _ _ _ H).
  - apply andb_true_iff in Hsets. destruct Hsets as [H1 H2].
    intros s c c' H. cbn [mtch] in H. apply orelse_some in H. destruct H as [H|H].
    + exact (IH1 H1 _ Hk _ _ _ H).
    + exact (IH2 H2 _ Hk _ _ _ H).
  - apply andb_true_iff in Hsets. destruct Hsets as [Hlo Hr].
    apply Nat.leb_le in Hlo.
    intros s c c' H. cbn [mtch] in H.
    exact (repeat_loop_first _ _ _ _ _ Hlo (mtch_keeps r) (IH Hr) Hk
             _ _ _ _ _ H).
  - intros s c c' H. cbn [mtch] in H.
    apply orb_true_iff in Hsets. destruct Hsets as [Hm|Hr].
    + apply Nat.eqb_eq in Hm. subst m.
      refine (mtch_yields r _ _ _ _ _ H).
      intros s1 c1 c1' H1. refine (Hk _ _ _ _ H1).
      unfold has. simpl. now rewrite Nat.eqb_refl.
    + refine (IH Hr _ _ _ _ _ H).
      exact (keeps_group k m
               (fun s s' => take (String.length s - String.length s') s) s Hk).
Qed.

Lemma search_from_always_sets r s c :
  always_sets n r = true -> search_from r s = Some c -> has n c.
Proof.
  intros Hsets. induction s as [|x s IH]; simpl.
  - destruct (mtch r (fun _ c0 => Some c0) "" []) as [c0|] eqn:Hm;
      [|discriminate].
    intros Hc. inversion Hc; subst c0.
    refine (mtch_always_sets r Hsets _ _ _ _ _ Hm).
    intros ? ? ? Hh Heq. now inversion Heq; subst.
  - destruct (mtch r (fun _ c0 => Some c0) (String x s) []) as [c0|] eqn:Hm.
    + intros Hc. inversion Hc; subst c0.
      refine (mtch_always_sets r Hsets _ _ _ _ _ Hm).
      intros ? ? ? Hh Heq. now inversion Heq; subst.
    + exact IH.
Qed.

End SreFacts.

(** ** The engine: the bound on the iterations of a repeat is never
    reached *)

Section SreFuel.
Import Sre.

Lemma repeat_loop_local body lo hi greedy :
  local body ->
  forall fuel (k1 k2 : cont) i last s c,
    (forall s' c', (String.length s' <= String.length s)%nat ->
                   k1 s' c' = k2 s' c') ->
    repeat_loop body lo hi greedy k1 fuel i last s c
    = repeat_loop body lo hi greedy k2 fuel i last s c.
Proof.
  intros Hbody. induction fuel as [|fuel IH]; intros k1 k2 i last s c Hk;
    [reflexivity|].
  assert (E : forall last',
             body (repeat_loop body lo hi greedy k1 fuel (S i) last') s c
             = body (repeat_loop body lo hi greedy k2 fuel (S i) last') s c).
  { intros last'. apply Hbody. intros s' c' Hle. apply IH.
    intros s2 c2 Hle2. apply Hk. lia. }
  cbn [repeat_loop].
  rewrite (Hk s c (Nat.le_refl _)), (E last), (E (Some (String.length s))).
  reflexivity.
Qed.

Lemma mtch_local r : local (mtch r).
Proof.
  induction r as [|l| |neg items|r1 IH1 r2 IH2|r1 IH1 r2 IH2
                 |lo hi greedy r IH|m r IH]; intros k1 k2 s c Hk;
    cbn [mtch].
  - now apply Hk.
  - destruct s as [|x s']; [reflexivity|].
    destruct (accepts _ x); [|reflexivity]. apply Hk. simpl. lia.
  - destruct s as [|x s']; [reflexivity|].
    destruct (accepts _ x); [|reflexivity]. apply Hk. simpl. lia.
  - destruct s as [|x s']; [reflexivity|].
    destruct (accepts _ x); [|reflexivity]. apply Hk. simpl. lia.
  - apply IH1. intros s' c' Hle. apply IH2.
    intros s2 c2 Hle2. apply Hk. lia.
  - rewrite (IH1 k1 k2 s c Hk), (IH2 k1 k2 s c Hk). reflexivity.
  - now apply repeat_loop_local.
  - apply IH. intros s' c' Hle. now apply Hk.
Qed.

(** Any fuel from [lo - i] plus the length of the text plus one, and one
    more while the loop is not at the mark of its latest iteration, gives
    the same answer: the loop stops before the bound does. *)
Lemma repeat_loop_fuel body lo hi greedy k :
  local body ->
  forall fuel1 fuel2 i last s c,
    (lo - i + String.length s + (if stalled last s then 0 else 1) + 1
     <= fuel1)%nat ->
    (lo - i + String.length s + (if stalled last s then 0 else 1) + 1
     <= fuel2)%nat ->
    repeat_loop body lo hi greedy k fuel1 i last s c
    = repeat_loop body lo hi greedy k fuel2 i last s c.
Proof.
  intros Hbody.
  induction fuel1 as [|fuel1 IH]; intros fuel2 i last s c H1 H2; [lia|].
  destruct fuel2 as [|fuel2]; [lia|].
  cbn [repeat_loop].
  destruct (Nat.ltb_spec i lo) as [Hlt|Hge].
  - apply Hbody. intros s' c' Hle.
    assert (Hm : (String.length s' + (if stalled last s' then 0 else 1)
                  <= String.length s + (if stalled last s then 0 else 1))%nat).
    { destruct (Nat.eq_dec (String.length s') (String.length s)) as [He|Hne].
      - unfold stalled. rewrite He. lia.
      - destruct (stalled last s'), (stalled last s); lia. }
    apply IH; lia.
  - destruct (stalled last s) eqn:Hst.
    + rewrite andb_false_r. reflexivity.
    + rewrite andb_true_r. destruct (below i hi); [|reflexivity].
      rewrite (Hbody
                 (repeat_loop body lo hi greedy k fuel1 (S i)
                    (Some (String.length s)))
                 (repeat_loop body lo hi greedy k fuel2 (S i)
                    (Some (String.length s))) s c); [reflexivity|].
      intros s' c' Hle.
      assert (Hm : (String.length s'
                    + (if stalled (Some (String.length s)) s' then 0 else 1)
                    <= String.length s)%nat).
      { unfold stalled.
        destruct (Nat.eqb_spec (String.length s) (String.length s')); lia. }
      apply IH; lia.
Qed.

(** The repeat of the matcher, with as much more fuel as one likes. *)
Lemma mtch_repeat_fuel lo hi greedy r k s c extra :
  mtch (Repeat lo hi greedy r) k s c
  = repeat_loop (mtch r) lo hi greedy k
      (lo + String.length s + 2 + extra) 0 None s c.
Proof.
  cbn [mtch]. apply repeat_loop_fuel; [apply mtch_local | simpl; lia ..].
Qed.

End SreFuel.

(** ** The field extractor on the engine of the repository's patterns *)

Section ExtractorInstances.
Import PyDict LayoutParser.
Existing Instance Sre.engine.

Ltac nodup := unfold wf; simpl; repeat constructor; simpl; intuition discriminate.
Ltac run := vm_compute; reflexivity.

Lemma first_match_wins_witness :
  wf Main.parser
  /\ get Main.parser "date"
     = Some ([] ++ "(\d{1,2}[-/]\d{1,2}[-/]\d{2,4})"
                :: ["(\d{4}[-/]\d{1,2}[-/]\d{1,2})"])
  /\ Forall (fails scenario_text) []
  /\ re_search "(\d{1,2}[-/]\d{1,2}[-/]\d{2,4})" scenario_text
     = Match [Some "25-07-15"]
  /\ re_search "(\d{4}[-/]\d{1,2}[-/]\d{1,2})" scenario_text
     = Match [Some "2025-07-15"]
  /\ extract_fields Main.parser scenario_text = Ok scenario_fields
  /\ exists v,
       get scenario_fields "date" = Some v
       /\ _extract_by_patterns scenario_text
            ["(\d{1,2}[-/]\d{1,2}[-/]\d{2,4})"] = Ok v
       /\ forall post',
            extract_fields
              (add_field Main.parser "date"
                 ([] ++ "(\d{1,2}[-/]\d{1,2}[-/]\d{2,4})" :: post'))
              scenario_text = Ok scenario_fields.
Proof.
  assert (H1 : wf Main.parser) by nodup.
  assert (H4 : re_search "(\d{1,2}[-/]\d{1,2}[-/]\d{2,4})" scenario_text
               = Match [Some "25-07-15"]) by run.
  assert (H5 : extract_fields Main.parser scenario_text = Ok scenario_fields)
    by run.
  repeat (split; [first [assumption | constructor | run]|]).
  exact (first_match_wins Main.parser scenario_text "date" []
           "(\d{1,2}[-/]\d{1,2}[-/]\d{2,4})"
           ["(\d{4}[-/]\d{1,2}[-/]\d{1,2})"] [Some "25-07-15"]
           scenario_fields H1 eq_refl (Forall_nil _) H4 H5).
Defined.

Lemma schema_completeness_witness :
  extract_fields Main.parser "" =
    Ok [("id", None); ("date", None); ("total", None); ("change", None)]
  /\ (forall k,
        In k (keys [("id", @None string); ("date", None); ("total", None);
                    ("change", None)])
        <-> In k (keys Main.parser))
  /\ (wf Main.parser ->
      keys [("id", @None string); ("date", None); ("total", None);
            ("change", None)] = keys Main.parser).
Proof.
  assert (H : extract_fields Main.parser "" =
              Ok [("id", None); ("date", None); ("total", None);
                  ("change", None)]) by run.
  split; [exact H|].
  exact (schema_completeness Main.parser "" _ H).
Defined.

Lemma two_group_reassembly_witness :
  wf [("total", ["Total: \$([\d,]+) and (\d+) cents"])]
  /\ re_search "Total: \$([\d,]+) and (\d+) cents"
       "Total: $1,234 and 56 cents" = Match [Some "1,234"; Some "56"]
  /\ extract_fields [("total", ["Total: \$([\d,]+) and (\d+) cents"])]
       "Total: $1,234 and 56 cents" = Ok [("total", Some "1234.56")]
  /\ exists g1 g2,
       [Some "1,234"; Some "56"]%string = [Some g1; Some g2]
       /\ get [("total", Some "1234.56")] "total"
          = Some (Some (PyStr.strip (PyStr.replace "," "" g1) ++ "."
                        ++ PyStr.strip g2)%string).
Proof.
  assert (H1 : wf [("total", ["Total: \$([\d,]+) and (\d+) cents"])])
    by nodup.
  assert (H4 : re_search "Total: \$([\d,]+) and (\d+) cents"
                 "Total: $1,234 and 56 cents"
               = Match [Some "1,234"; Some "56"]) by run.
  assert (H5 : extract_fields
                 [("total", ["Total: \$([\d,]+) and (\d+) cents"])]
                 "Total: $1,234 and 56 cents"
               = Ok [("total", Some "1234.56")]) by run.
  repeat (split; [assumption|]).
  exact (two_group_reassembly _ "Total: $1,234 and 56 cents" "total" []
           "Total: \$([\d,]+) and (\d+) cents" [] _ _
           H1 eq_refl (Forall_nil _) H4 eq_refl H5).
Defined.

Lemma absence_marker_witness :
  wf (add_field Main.parser "note" [])
  /\ extract_fields (add_field Main.parser "note" []) scenario_text
     = Ok (scenario_fields ++ [("note", None)])
  /\ get (scenario_fields ++ [("note", None)]) "note" = Some None
  /\ In "note"%string (keys (scenario_fields ++ [("note", @None string)]))
  /\ get (scenario_fields ++ [("note", None)]) "note" <> Some (Some ""%string).
Proof.
  assert (H1 : wf (add_field Main.parser "note" [])) by nodup.
  assert (H4 : extract_fields (add_field Main.parser "note" []) scenario_text
               = Ok (scenario_fields ++ [("note", None)])) by run.
  repeat (split; [assumption|]).
  exact (absence_marker _ scenario_text "note" [] _
           H1 eq_refl (Forall_nil _) H4).
Defined.

(** C5, the claim as stated fails: a rule of three groups that matches
    resolves the field to a value, its group 1, with no error. *)
Lemma three_group_rule_resolves :
  exists (rule text : string) groups v,
    re_search rule text = Match groups
    /\ length groups = 3
    /\ extract_fields [("date", [rule])] text = Ok [("date", Some v)].
Proof.
  exists "(\d+)-(\d+)-(\d+)"%string, "1-2-3"%string,
    [Some "1"; Some "2"; Some "3"]%string, "1"%string.
  repeat split; run.
Qed.

Lemma other_group_counts_witness :
  wf [("date", ["(\d+)-(\d+)-(\d+)"])]
  /\ re_search "(\d+)-(\d+)-(\d+)" "1-2-3"
     = Match [Some "1"; Some "2"; Some "3"]
  /\ extract_fields [("date", ["(\d+)-(\d+)-(\d+)"])] "1-2-3"
     = Ok [("date", Some "1")]
  /\ exists g1,
       nth_error [Some "1"; Some "2"; Some "3"]%string 0 = Some (Some g1)
       /\ get [("date", Some "1")] "date" = Some (Some (PyStr.strip g1)).
Proof.
  assert (H1 : wf [("date", ["(\d+)-(\d+)-(\d+)"])]) by nodup.
  assert (H4 : re_search "(\d+)-(\d+)-(\d+)" "1-2-3"
               = Match [Some "1"; Some "2"; Some "3"]) by run.
  assert (H5 : extract_fields [("date", ["(\d+)-(\d+)-(\d+)"])] "1-2-3"
               = Ok [("date", Some "1")]) by run.
  repeat (split; [assumption|]).
  refine (proj2 (other_group_counts _ "1-2-3" "date" []
                   "(\d+)-(\d+)-(\d+)" [] [Some "1"; Some "2"; Some "3"]
                   H1 eq_refl (Forall_nil _) H4 _ _) _ _ H5);
    simpl; first [discriminate | lia].
Defined.

(** C6, the claim as stated fails: after [add_field("ref", ["abc"])], a
    rule with no group, on the default schema, [extract_fields("abc")]
    raises [IndexError]. *)
Lemma extract_fields_can_raise :
  exists s text,
    reachable s /\ wf s /\ extract_fields s text = Raise IndexError.
Proof.
  exists (add_field (__init__ None) "ref" ["abc"]), "abc"%string.
  split; [|split].
  - apply reach_add. apply (reach_init None). exact I.
  - nodup.
  - run.
Qed.

Lemma safe_rule_usable pattern text :
  Sre.safe_rule pattern = true ->
  match re_search pattern text with
  | ReError => False
  | NoMatch => True
  | Match groups => usable groups
  end.
Proof.
  unfold Sre.safe_rule.
  change (re_search pattern text) with (Sre.search pattern text).
  unfold Sre.search.
  destruct (Sre.parse pattern) as [[r g]|]; [|discriminate].
  intros Hsafe.
  apply andb_true_iff in Hsafe. destruct Hsafe as [Hsafe H2].
  apply andb_true_iff in Hsafe. destruct Hsafe as [Hg H1].
  destruct (Sre.search_from r text) as [c|] eqn:Hc; [|exact I].
  pose proof (search_from_always_sets 1 r text c H1 Hc) as Hc1.
  destruct g as [|g]; [discriminate|].
  unfold usable, captured. simpl. split.
  - unfold has in Hc1. destruct (Sre.cap c 1) as [x|]; [eauto|congruence].
  - rewrite length_map, length_seq. intros Hlen.
    assert (g = 1) by lia. subst g. simpl in H2.
    pose proof (search_from_always_sets 2 r text c H2 Hc) as Hc2.
    unfold has in Hc2. simpl.
    destruct (Sre.cap c 2) as [x|]; [eauto|congruence].
Qed.

Lemma safe_rules_go_through text ps :
  forallb Sre.safe_rule ps = true -> goes_through text ps.
Proof.
  induction ps as [|p ps IH]; simpl; [auto|].
  intros H. apply andb_true_iff in H. destruct H as [Hp Hps].
  pose proof (safe_rule_usable p text Hp) as Hu. simpl in Hu.
  destruct (Sre.search p text); auto.
Qed.

Lemma safe_schema_returns s text :
  Sre.safe_schema s = true -> exists r, extract_fields s text = Ok r.
Proof.
  intros Hs. apply (extract_loop_returns text s []).
  intros f ps Hin. apply safe_rules_go_through.
  unfold Sre.safe_schema in Hs. rewrite forallb_forall in Hs.
  exact (Hs _ Hin).
Qed.

(** C6, as amended.  For every engine, schema and text, [extract_fields]
    returns normally exactly when the rules of every field go through on
    the text: each rule tried before the first match compiles, and the
    first rule to match, if any, has a group 1 that took part in the match
    and, when it has exactly two groups, a group 2 that took part too;
    otherwise it raises.  With the default schema of the constructor and
    with the receipt schema of [main.py] it returns normally for every
    text. *)
Theorem extract_fields_returns :
  (forall (E' : RegexEngine) s text,
      (forall f ps, In (f, ps) s -> @goes_through E' text ps) <->
      exists r, @extract_fields E' s text = Ok r)
  /\ (forall text, exists r, extract_fields (__init__ None) text = Ok r)
  /\ (forall text, exists r, extract_fields Main.parser text = Ok r).
Proof.
  split; [|split].
  - intros E' s text. apply extract_loop_returns.
  - intros text. now apply safe_schema_returns.
  - intros text. now apply safe_schema_returns.
Qed.

Lemma extract_fields_returns_witness :
  (forall f ps, In (f, ps) Main.parser -> goes_through scenario_text ps)
  /\ exists r, extract_fields Main.parser scenario_text = Ok r.
Proof.
  pose proof (proj2 (proj2 extract_fields_returns) scenario_text) as H.
  split; [|exact H].
  exact (proj2 (proj1 extract_fields_returns Sre.engine Main.parser
                  scenario_text) H).
Defined.

(** C7, what the code does on the scenario.  The identifier, the total
    and the change are the expected ones, but the date is "25-07-15":
    the first date rule, which is not anchored, matches inside
    "2025-07-15" from its third character on, and the rule written for
    that format is never tried. *)
Theorem receipt_scenario :
  extract_fields Main.parser scenario_text
  = Ok [ ("id", Some "9876"); ("date", Some "25-07-15");
         ("total", Some "123.45"); ("change", Some "5.00") ]
  /\ re_search "(\d{4}[-/]\d{1,2}[-/]\d{1,2})" scenario_text
     = Match [Some "2025-07-15"].
Proof.
  split; run.
Qed.

(** C10. A present value may be empty: a rule of one group whose group
    matches whitespace only resolves its field to the empty string,
    which is not [None]. *)
Theorem whitespace_group_gives_empty_string :
  exists (rule text g : string) r,
    re_search rule text = Match [Some g]
    /\ blank g = true
    /\ extract_fields [("note", [rule])] text = Ok r
    /\ get r "note" = Some (Some ""%string)
    /\ get r "note" <> Some None.
Proof.
  exists "Note:(\s*)"%string, "Note:   "%string, "   "%string,
    [("note", Some ""%string)].
  repeat split; try run. simpl. discriminate.
Qed.

End ExtractorInstances.

(** ** The normaliser *)

Section NormaliserClaims.
Import Cv2 ImagePreprocessor.
Local Open Scope Z_scope.



Lemma resize_ok image W out :
  _resize image W = Ok out ->
  0 < W /\ 0 < height out /\ width out = W
  /\ channels out = channels image
  /\ exists ratio,
       PyFloat.truediv W (width image) = Ok ratio
       /\ PyFloat.to_int (PyFloat.mul_int (height image) ratio)
          = Ok (height out).
Proof.
  unfold _resize.
  destruct (PyFloat.truediv W (width image)) as [ratio|] eqn:Hq;
    simpl; [|discriminate].
  destruct (PyFloat.to_int (PyFloat.mul_int (height image) ratio)) as [n|]
    eqn:Hn; simpl; [|discriminate].
  unfold resize, empty.
  destruct (fits_int W && fits_int n); simpl; [|discriminate].
  destruct (Z.leb_spec (width image) 0); simpl; [discriminate|].
  destruct (Z.leb_spec (height image) 0); simpl; [discriminate|].
  destruct (Z.leb_spec W 0); simpl; [discriminate|].
  destruct (Z.leb_spec n 0); simpl; [discriminate|].
  intros Hout. inversion Hout; subst; simpl.
  repeat (split; [assumption || reflexivity|]).
  exists ratio. now split.
Qed.








(** Cutting towards zero is done on the rounded product, not on the
    exact quotient: 49 * (1 / 49) is just below 1 in double precision,
    so a square image of side 49 has no resize to width 1. *)
Example resize_49 :
  _resize {| height := 49; width := 49; channels := 3 |} 1 = Raise cv2_error.
Proof. vm_compute. reflexivity. Qed.




End NormaliserClaims.


(** * Further properties *)

(** ** The schema as a dictionary: [add_field] *)

Section SchemaUpdates.
Import PyDict LayoutParser.
Implicit Types (s : schema) (f : string) (ps : list string).

(** [add_field] then a lookup: the field just written holds the new rules
    and every other field holds what it held. *)
Theorem add_field_lookup s f ps f' :
  get (add_field s f ps) f' = if String.eqb f f' then Some ps else get s f'.
Proof.
  unfold add_field. induction s as [|[k0 v0] s IH]; simpl.
  - reflexivity.
  - destruct (String.eqb_spec k0 f) as [->|Hne]; simpl.
    + now destruct (String.eqb f f').
    + rewrite IH. destruct (String.eqb_spec k0 f') as [->|Hne'];
        [|reflexivity].
      destruct (String.eqb_spec f f') as [->|_]; [contradiction|reflexivity].
Qed.

(** [add_field] and the order of the fields: a field the schema has keeps
    its place and the key list is unchanged; a new field goes last.  No
    key is ever duplicated. *)
Theorem add_field_keys s f ps :
  (In f (keys s) -> keys (add_field s f ps) = keys s)
  /\ (~ In f (keys s) -> add_field s f ps = s ++ [(f, ps)])
  /\ (wf s -> wf (add_field s f ps)).
Proof.
  unfold add_field. split; [|split].
  - apply keys_set_present.
  - apply set_fresh.
  - apply wf_set.
Qed.

(** The last [add_field] on a name wins: the rules given before for it
    leave no trace. *)
Theorem add_field_overwrites s f ps1 ps2 :
  add_field (add_field s f ps1) f ps2 = add_field s f ps2.
Proof.
  unfold add_field. induction s as [|[k0 v0] s IH]; simpl.
  - now rewrite String.eqb_refl.
  - destruct (String.eqb_spec k0 f) as [->|Hne]; simpl.
    + now rewrite String.eqb_refl.
    + destruct (String.eqb_spec k0 f) as [|_]; [contradiction|].
      now rewrite IH.
Qed.

End SchemaUpdates.

(** ** Trimming *)

Section StripFacts.
Import PyStr.

Lemma lstrip_no_lead s : no_lead (lstrip s).
Proof.
  induction s as [|c s IH]; simpl; [exact I|].
  destruct (isspace c) eqn:Hc; [exact IH|]. simpl. exact Hc.
Qed.

Lemma lstrip_fixed t : no_lead t -> lstrip t = t.
Proof.
  destruct t as [|c t]; simpl; [reflexivity|]. now intros ->.
Qed.

Lemma rstrip_no_lead t : no_lead t -> no_lead (rstrip t).
Proof.
  destruct t as [|c t]; simpl; [auto|].
  intros Hc. destruct (rstrip t); [rewrite Hc|]; simpl; exact Hc.
Qed.

Lemma rstrip_idem t : rstrip (rstrip t) = rstrip t.
Proof.
  induction t as [|c t IH]; simpl; [reflexivity|].
  destruct (rstrip t) as [|d r] eqn:Hr.
  - destruct (isspace c) eqn:Hc; simpl; [reflexivity|]. now rewrite Hc.
  - change (rstrip (String c (String d r)))
      with (match rstrip (String d r) with
            | EmptyString =>
                if isspace c then EmptyString else String c EmptyString
            | String x y => String c (String x y)
            end).
    now rewrite IH.
Qed.

Lemma strip_trimmed s : trimmed (strip s).
Proof.
  unfold trimmed, strip.
  rewrite (lstrip_fixed (rstrip (lstrip s))).
  - apply rstrip_idem.
  - apply rstrip_no_lead, lstrip_no_lead.
Qed.

Lemma strip_no_lead s : no_lead (strip s).
Proof. apply rstrip_no_lead, lstrip_no_lead. Qed.

Lemma rstrip_strip s : rstrip (strip s) = strip s.
Proof. apply rstrip_idem. Qed.

(** Nothing is cut from the right of a text that ends in a trimmed,
    non-empty part. *)
Lemma rstrip_app x y :
  y <> EmptyString -> rstrip y = y -> rstrip (x ++ y)%string = (x ++ y)%string.
Proof.
  intros Hy Hfix. induction x as [|c x IH]; simpl; [exact Hfix|].
  rewrite IH. destruct (x ++ y)%string eqn:Hxy; [|reflexivity].
  destruct x; simpl in Hxy; [contradiction|discriminate].
Qed.

Lemma dot_then_trimmed b :
  rstrip (String "." (strip b)) = String "." (strip b).
Proof.
  change (rstrip (String "." (strip b)))
    with (match rstrip (strip b) with
          | EmptyString =>
              if isspace "." then EmptyString else String "." EmptyString
          | String x y => String "." (String x y)
          end).
  rewrite rstrip_strip. now destruct (strip b).
Qed.

(** The reassembled value of two groups is itself trimmed. *)
Lemma reassembled_trimmed a b :
  trimmed (strip a ++ "." ++ strip b)%string.
Proof.
  unfold trimmed. unfold strip at 1.
  rewrite lstrip_fixed.
  - apply rstrip_app; [discriminate | apply dot_then_trimmed].
  - pose proof (strip_no_lead a) as Ha.
    destruct (strip a); simpl; [reflexivity | exact Ha].
Qed.

Lemma replace_drops_char c s : has_char c (replace c "" s) = false.
Proof.
  induction s as [|x s IH]; simpl; [reflexivity|].
  destruct (Ascii.eqb_spec x c) as [->|Hne]; simpl; [exact IH|].
  rewrite IH. now destruct (Ascii.eqb_spec x c).
Qed.

Lemma lstrip_keeps_absent c s : has_char c s = false -> has_char c (lstrip s) = false.
Proof.
  induction s as [|x s IH]; simpl; [auto|].
  intros H. apply orb_false_iff in H. destruct H as [Hx Hs].
  destruct (isspace x); [auto|]. simpl. now rewrite Hx, Hs.
Qed.

Lemma rstrip_keeps_absent c s : has_char c s = false -> has_char c (rstrip s) = false.
Proof.
  induction s as [|x s IH]; simpl; [auto|].
  intros H. apply orb_false_iff in H. destruct H as [Hx Hs].
  specialize (IH Hs). destruct (rstrip s) as [|d r].
  - destruct (isspace x); simpl; [reflexivity|]. now rewrite Hx.
  - change (has_char c (String x (String d r)))
      with (Ascii.eqb x c || has_char c (String d r)).
    now rewrite Hx, IH.
Qed.

Lemma strip_empty_blank s : strip s = EmptyString <-> blank s = true.
Proof.
  split.
  - unfold strip. induction s as [|x s IH]; simpl; [reflexivity|].
    destruct (isspace x) eqn:Hx; [exact IH|].
    simpl. destruct (rstrip s); [rewrite Hx|]; discriminate.
  - unfold strip. induction s as [|x s IH]; simpl; [reflexivity|].
    intros H. apply andb_true_iff in H. destruct H as [Hx Hs].
    rewrite Hx. now apply IH.
Qed.

End StripFacts.

(** ** The field extractor, further: for every engine *)

Section ExtractorExtras.
Import PyDict LayoutParser.
Context {E : RegexEngine}.
Implicit Types (s : schema) (r : fields) (text f : string)
  (ps pre post : list string).

Lemma resolve_some groups v : resolve groups = Ok v -> v <> None.
Proof.
  unfold resolve.
  destruct (Nat.eqb (length groups) 2).
  - destruct (group groups 1) as [[g1|]|]; simpl; try discriminate.
    destruct (group groups 2) as [[g2|]|]; simpl; try discriminate.
    intros H. inversion H. discriminate.
  - destruct (group groups 1) as [[g1|]|]; simpl; try discriminate.
    intros H. inversion H. discriminate.
Qed.

(** The absence marker, both ways: the rules of a field give [None]
    exactly when every one of them fails to match the text; a match never
    resolves to [None]. *)
Theorem none_iff_all_fail text ps :
  _extract_by_patterns text ps = Ok None <-> Forall (fails text) ps.
Proof.
  induction ps as [|p ps IH]; simpl.
  - split; auto.
  - unfold fails at 1. destruct (re_search p text) as [| |groups] eqn:Hp.
    + split; [discriminate|]. intros H. inversion H; subst.
      unfold fails in *. congruence.
    + rewrite IH. split; [intros H; constructor; assumption|].
      intros H. now inversion H.
    + split.
      * intros H. now apply resolve_some in H.
      * intros H. inversion H; subst. unfold fails in *. congruence.
Qed.

Lemma extract_each_after_set text items f ps :
  forall r,
    extract_each text items = Ok r ->
    extract_each text (set items f ps) =
      bind (_extract_by_patterns text ps) (fun v => Ok (set r f v)).
Proof.
  induction items as [|[f0 ps0] items IH]; simpl; intros r Hr.
  - inversion Hr; subst. simpl.
    now destruct (_extract_by_patterns text ps).
  - destruct (_extract_by_patterns text ps0) as [v0|] eqn:H0; [|discriminate].
    destruct (extract_each text items) as [vs|] eqn:Hvs; [|discriminate].
    inversion Hr; subst. simpl.
    destruct (String.eqb_spec f0 f) as [->|Hne]; simpl.
    + rewrite Hvs. now destruct (_extract_by_patterns text ps).
    + rewrite H0, (IH vs eq_refl).
      now destruct (_extract_by_patterns text ps).
Qed.

(** Extraction after [add_field].  When extraction returns [r] on a
    schema, then on the schema with the rules of [f] set to [ps] it
    returns [r] with the entry of [f] set to what [ps] give, all other
    entries and their order as they were; and it raises what [ps] raise. *)
Theorem extract_after_add_field s text f ps r :
  wf s ->
  extract_fields s text = Ok r ->
  extract_fields (add_field s f ps) text =
    bind (_extract_by_patterns text ps) (fun v => Ok (set r f v)).
Proof.
  intros Hs Hr. unfold add_field.
  rewrite extract_fields_each in Hr by exact Hs.
  rewrite extract_fields_each by now apply wf_set.
  now apply extract_each_after_set.
Qed.

(** Fields are independent: two schemas that give a field the same rules
    give it the same value, whatever their other fields are. *)
Theorem field_independence s1 s2 text f ps r1 r2 :
  wf s1 -> wf s2 ->
  get s1 f = Some ps -> get s2 f = Some ps ->
  extract_fields s1 text = Ok r1 ->
  extract_fields s2 text = Ok r2 ->
  get r1 f = get r2 f.
Proof.
  intros H1 H2 G1 G2 R1 R2.
  destruct (extract_fields_get _ _ _ _ _ H1 R1 G1) as [v1 [Hv1 ->]].
  destruct (extract_fields_get _ _ _ _ _ H2 R2 G2) as [v2 [Hv2 ->]].
  congruence.
Qed.

Lemma extract_loop_first_error text s1 f ps s2 e :
  (forall f' ps', In (f', ps') s1 ->
                  exists v, _extract_by_patterns text ps' = Ok v) ->
  _extract_by_patterns text ps = Raise e ->
  forall acc, extract_loop text (s1 ++ (f, ps) :: s2) acc = Raise e.
Proof.
  intros H1 Hps. induction s1 as [|[f0 ps0] s1 IH]; intros acc; simpl.
  - now rewrite Hps.
  - destruct (H1 f0 ps0 (or_introl eq_refl)) as [v0 ->]. simpl.
    apply IH. intros f' ps' Hin. apply (H1 f' ps'). now right.
Qed.

(** Which exception: the fields are tried in the order of the schema and
    the first one whose rules raise ends the call with its exception; the
    fields after it are not tried. *)
Theorem first_error_decides s1 f ps s2 text e :
  (forall f' ps', In (f', ps') s1 ->
                  exists v, _extract_by_patterns text ps' = Ok v) ->
  _extract_by_patterns text ps = Raise e ->
  extract_fields (s1 ++ (f, ps) :: s2) text = Raise e.
Proof.
  intros H1 Hps. unfold extract_fields.
  now apply extract_loop_first_error.
Qed.

Lemma resolve_trimmed groups v : resolve groups = Ok (Some v) -> trimmed v.
Proof.
  unfold resolve.
  destruct (Nat.eqb (length groups) 2).
  - destruct (group groups 1) as [[g1|]|]; simpl; try discriminate.
    destruct (group groups 2) as [[g2|]|]; simpl; try discriminate.
    intros H. inversion H. apply reassembled_trimmed.
  - destruct (group groups 1) as [[g1|]|]; simpl; try discriminate.
    intros H. inversion H. apply strip_trimmed.
Qed.

Lemma extract_by_patterns_trimmed text ps v :
  _extract_by_patterns text ps = Ok (Some v) -> trimmed v.
Proof.
  induction ps as [|p ps IH]; simpl; [discriminate|].
  destruct (re_search p text); [discriminate | exact IH | apply resolve_trimmed].
Qed.

Lemma set_values (P : option string -> Prop) (d : fields) k v :
  P v -> (forall k' v', In (k', v') d -> P v') ->
  forall k' v', In (k', v') (set d k v) -> P v'.
Proof.
  intros Hv. induction d as [|[k0 v0] d IH]; simpl; intros Hd k' v' Hin.
  - destruct Hin as [Heq|[]]. now inversion Heq; subst.
  - destruct (String.eqb k0 k); simpl in Hin.
    + destruct Hin as [Heq|Hin]; [now inversion Heq; subst|].
      apply (Hd k' v'). now right.
    + destruct Hin as [Heq|Hin].
      * apply (Hd k' v'). now left.
      * apply (IH (fun a b H => Hd a b (or_intror H)) k' v' Hin).
Qed.

Lemma extract_loop_values (P : option string -> Prop) text items :
  (forall ps v, _extract_by_patterns text ps = Ok v -> P v) ->
  forall acc r,
    (forall k v, In (k, v) acc -> P v) ->
    extract_loop text items acc = Ok r ->
    forall k v, In (k, v) r -> P v.
Proof.
  intros HP. induction items as [|[f ps] items IH]; simpl; intros acc r Hacc Hr.
  - inversion Hr; subst. exact Hacc.
  - destruct (_extract_by_patterns text ps) as [v0|] eqn:H0; [|discriminate].
    simpl in Hr. refine (IH _ _ _ Hr).
    apply set_values; [exact (HP _ _ H0) | exact Hacc].
Qed.

(** No value in the result begins or ends with whitespace: trimming it
    again changes nothing. *)
Theorem values_are_trimmed s text r f v :
  extract_fields s text = Ok r ->
  In (f, Some v) r ->
  trimmed v.
Proof.
  intros Hr Hin.
  refine (extract_loop_values
            (fun o => match o with Some x => trimmed x | None => True end)
            text s _ [] r _ Hr f (Some v) Hin).
  - intros ps [x|] Hx; [|exact I]. now apply extract_by_patterns_trimmed in Hx.
  - intros k x [].
Qed.

(** The value of a two-group rule splits at a dot into an integer part
    that holds no comma and a fractional part, each trimmed. *)
Theorem two_group_integer_part text pre R post g1 g2 :
  Forall (fails text) pre ->
  re_search R text = Match [Some g1; Some g2] ->
  exists a b,
    _extract_by_patterns text (pre ++ R :: post)
    = Ok (Some (a ++ "." ++ b)%string)
    /\ has_char "," a = false
    /\ trimmed a /\ trimmed b.
Proof.
  intros Hpre HR.
  exists (PyStr.strip (PyStr.replace "," "" g1)), (PyStr.strip g2).
  split; [|split; [|split]].
  - now rewrite (first_match_decides _ _ _ post _ Hpre HR).
  - unfold PyStr.strip.
    apply rstrip_keeps_absent, lstrip_keeps_absent, replace_drops_char.
  - apply strip_trimmed.
  - apply strip_trimmed.
Qed.

End ExtractorExtras.

(** ** The engine: the case of the text *)

Section SreLower.
Import Sre.

Ltac by_cases c :=
  destruct c as [[] [] [] [] [] [] [] []]; reflexivity.

Lemma lower_idem c : PyStr.lower (PyStr.lower c) = PyStr.lower c.
Proof. by_cases c. Qed.

Lemma isspace_lower c : PyStr.isspace (PyStr.lower c) = PyStr.isspace c.
Proof. by_cases c. Qed.

Lemma isdigit_lower c : PyStr.isdigit (PyStr.lower c) = PyStr.isdigit c.
Proof. by_cases c. Qed.

Lemma newline_lower c :
  Ascii.eqb (PyStr.lower c) "010" = Ascii.eqb c "010".
Proof. by_cases c. Qed.

Lemma comma_lower c : Ascii.eqb (PyStr.lower c) "," = Ascii.eqb c ",".
Proof. by_cases c. Qed.

Lemma accepts_lower r x : accepts r (PyStr.lower x) = accepts r x.
Proof.
  destruct r; simpl; try reflexivity.
  - now rewrite lower_idem.
  - now rewrite newline_lower.
  - now rewrite lower_idem.
Qed.

Lemma length_str_lower s : String.length (str_lower s) = String.length s.
Proof. induction s; simpl; congruence. Qed.

Lemma take_str_lower n s : take n (str_lower s) = str_lower (take n s).
Proof.
  revert s. induction n as [|n IH]; intros [|c s]; simpl; try reflexivity.
  now rewrite IH.
Qed.

Lemma cap_lower c n : cap (lower_caps c) n = option_map str_lower (cap c n).
Proof.
  induction c as [|[m s] c IH]; simpl; [reflexivity|].
  now destruct (Nat.eqb m n).
Qed.

Lemma orelse_lower a a' b b' :
  a' = option_map lower_caps a ->
  b' tt = option_map lower_caps (b tt) ->
  orelse a' b' = option_map lower_caps (orelse a b).
Proof. intros -> Hb. now destruct a. Qed.

Lemma repeat_loop_lower body lo hi greedy k k' :
  (forall k1 k1', lowered k1 k1' -> lowered (body k1) (body k1')) ->
  lowered k k' ->
  forall fuel i last,
    lowered (repeat_loop body lo hi greedy k fuel i last)
            (repeat_loop body lo hi greedy k' fuel i last).
Proof.
  intros Hbody Hk. induction fuel as [|fuel IH]; intros i last s c;
    [reflexivity|].
  cbn [repeat_loop].
  assert (Hst : stalled last (str_lower s) = stalled last s).
  { unfold stalled. now rewrite length_str_lower. }
  rewrite Hst, length_str_lower.
  destruct (i <? lo)%nat.
  { apply Hbody. intros s1 c1. apply IH. }
  assert (Hmore :
    (if below i hi && negb (stalled last s)
     then body
            (repeat_loop body lo hi greedy k' fuel (S i)
               (Some (String.length s))) (str_lower s) (lower_caps c)
     else None)
    = option_map lower_caps
        (if below i hi && negb (stalled last s)
         then body
                (repeat_loop body lo hi greedy k fuel (S i)
                   (Some (String.length s))) s c
         else None)).
  { destruct (below i hi && negb (stalled last s)); [|reflexivity].
    apply Hbody. intros s1 c1. apply IH. }
  destruct greedy; apply orelse_lower; first [exact Hmore | apply Hk].
Qed.

Lemma mtch_lower r : forall k k', lowered k k' -> lowered (mtch r k) (mtch r k').
Proof.
  induction r as [|l| |neg items|r1 IH1 r2 IH2|r1 IH1 r2 IH2
                 |lo hi greedy r IH|m r IH]; intros k k' Hk s c;
    cbn [mtch].
  - apply Hk.
  - destruct s as [|x s']; [reflexivity|]. cbn [str_lower].
    rewrite accepts_lower. destruct (accepts _ x); [apply Hk|reflexivity].
  - destruct s as [|x s']; [reflexivity|]. cbn [str_lower].
    rewrite accepts_lower. destruct (accepts _ x); [apply Hk|reflexivity].
  - destruct s as [|x s']; [reflexivity|]. cbn [str_lower].
    rewrite accepts_lower. destruct (accepts _ x); [apply Hk|reflexivity].
  - apply IH1. now apply IH2.
  - apply orelse_lower; [apply (IH1 k k' Hk) | apply (IH2 k k' Hk)].
  - rewrite length_str_lower. now apply repeat_loop_lower.
  - apply IH. intros s1 c1. rewrite !length_str_lower, take_str_lower.
    apply (Hk s1 ((m, take (String.length s - String.length s1) s) :: c1)).
Qed.

Lemma search_from_lower r s :
  search_from r (str_lower s) = option_map lower_caps (search_from r s).
Proof.
  assert (H0 : lowered (fun _ c => Some c) (fun _ c => Some c))
    by (intros ? ?; reflexivity).
  induction s as [|x s IH].
  - cbn [search_from str_lower].
    pose proof (mtch_lower r _ _ H0 EmptyString []) as Hm.
    cbn [str_lower lower_caps map] in Hm.
    destruct (mtch r (fun _ c => Some c) EmptyString []);
      [exact Hm|reflexivity].
  - cbn [search_from str_lower].
    pose proof (mtch_lower r _ _ H0 (String x s) []) as Hm.
    cbn [str_lower lower_caps map] in Hm. rewrite Hm.
    destruct (mtch r (fun _ c => Some c) (String x s) []); simpl;
      [reflexivity|exact IH].
Qed.

(** Lowering the text lowers the groups of the match and changes nothing
    else: which rule matches does not depend on the case of the text. *)
Lemma search_lower pattern text :
  search pattern (str_lower text) = lower_match (search pattern text).
Proof.
  unfold search. destruct (parse pattern) as [[r g]|]; [|reflexivity].
  rewrite search_from_lower.
  destruct (search_from r text) as [c|]; simpl; [|reflexivity].
  f_equal. rewrite map_map. apply map_ext. intros n. apply cap_lower.
Qed.

Lemma lstrip_lower s : PyStr.lstrip (str_lower s) = str_lower (PyStr.lstrip s).
Proof.
  induction s as [|c s IH]; simpl; [reflexivity|].
  rewrite isspace_lower. now destruct (PyStr.isspace c).
Qed.

Lemma rstrip_lower s : PyStr.rstrip (str_lower s) = str_lower (PyStr.rstrip s).
Proof.
  induction s as [|c s IH]; simpl; [reflexivity|].
  rewrite IH, isspace_lower.
  destruct (PyStr.rstrip s); simpl; [|reflexivity].
  now destruct (PyStr.isspace c).
Qed.

Lemma strip_lower s : PyStr.strip (str_lower s) = str_lower (PyStr.strip s).
Proof. unfold PyStr.strip. now rewrite lstrip_lower, rstrip_lower. Qed.

Lemma replace_comma_lower s :
  PyStr.replace "," "" (str_lower s) = str_lower (PyStr.replace "," "" s).
Proof.
  induction s as [|c s IH]; simpl; [reflexivity|].
  rewrite comma_lower. destruct (Ascii.eqb c ","); simpl; now rewrite IH.
Qed.

Lemma append_lower a b :
  str_lower (a ++ b)%string = (str_lower a ++ str_lower b)%string.
Proof. induction a; simpl; congruence. Qed.

Lemma resolve_lower groups :
  LayoutParser.resolve (map (option_map str_lower) groups)
  = match LayoutParser.resolve groups with
    | Ok v => Ok (option_map str_lower v)
    | Raise e => Raise e
    end.
Proof.
  unfold LayoutParser.resolve. rewrite length_map.
  destruct groups as [|[g1|] [|[g2|] [|o3 rest]]]; simpl; try reflexivity;
    rewrite ?replace_comma_lower, ?strip_lower, ?append_lower;
    reflexivity.
Qed.

End SreLower.

(** ** The field extractor, further: on the engine of the repository's
    patterns *)

Section ExtractorOnEngine.
Import PyDict LayoutParser.
Existing Instance Sre.engine.

Ltac nodup := unfold wf; simpl; repeat constructor; simpl; intuition discriminate.
Ltac run := vm_compute; reflexivity.

Lemma extract_by_patterns_lower text ps :
  _extract_by_patterns (str_lower text) ps
  = match _extract_by_patterns text ps with
    | Ok v => Ok (option_map str_lower v)
    | Raise e => Raise e
    end.
Proof.
  induction ps as [|p ps IH]; simpl; [reflexivity|].
  rewrite search_lower. destruct (Sre.search p text); simpl.
  - reflexivity.
  - exact IH.
  - apply resolve_lower.
Qed.

Lemma set_lower_fields (acc : fields) f v :
  set (lower_fields acc) f (option_map str_lower v)
  = lower_fields (set acc f v).
Proof.
  induction acc as [|[k0 v0] acc IH]; simpl; [reflexivity|].
  destruct (String.eqb k0 f); simpl; [reflexivity|]. now rewrite IH.
Qed.

Lemma extract_loop_lower text items :
  forall acc,
    extract_loop (str_lower text) items (lower_fields acc)
    = lower_result (extract_loop text items acc).
Proof.
  induction items as [|[f ps] items IH]; intros acc; simpl; [reflexivity|].
  rewrite extract_by_patterns_lower.
  destruct (_extract_by_patterns text ps) as [v|e]; simpl; [|reflexivity].
  rewrite set_lower_fields. apply IH.
Qed.

(** The case of the text does not matter to what is found, for a schema
    whose rules are all in the syntax the engine reads: on the text
    lowered, extraction returns the same map with its values lowered, and
    raises what it raised. *)
Theorem extraction_ignores_case (s : schema) text :
  Sre.covered_schema s = true ->
  extract_fields s (str_lower text) = lower_result (extract_fields s text).
Proof.
  intros _. unfold extract_fields. apply (extract_loop_lower text s []).
Qed.

Lemma extraction_ignores_case_witness :
  Sre.covered_schema Main.parser = true
  /\ extract_fields Main.parser (str_lower scenario_text)
     = lower_result (extract_fields Main.parser scenario_text).
Proof.
  assert (H : Sre.covered_schema Main.parser = true) by (vm_compute; reflexivity).
  split; [exact H|].
  exact (extraction_ignores_case Main.parser scenario_text H).
Defined.

(** A parser built with no schema, or with an empty one, works on the
    default schema: for every text it returns a map with the three keys
    of the default, the same map in both cases. *)
Theorem empty_schema_means_default text :
  exists r,
    extract_fields (__init__ (Some [])) text = Ok r
    /\ extract_fields (__init__ None) text = Ok r
    /\ keys r = ["invoice_number"; "date"; "total"]%string.
Proof.
  destruct (safe_schema_returns default_patterns text eq_refl) as [r Hr].
  exists r. split; [exact Hr|]. split; [exact Hr|].
  assert (Hwf : wf default_patterns) by nodup.
  rewrite extract_fields_each in Hr by exact Hwf.
  now apply extract_each_keys in Hr.
Qed.

Lemma extract_after_add_field_witness :
  wf Main.parser
  /\ extract_fields Main.parser scenario_text = Ok scenario_fields
  /\ extract_fields
       (add_field Main.parser "change" ["Change\s*Due:\s*\$(\d+)"])
       scenario_text
     = bind (_extract_by_patterns scenario_text ["Change\s*Due:\s*\$(\d+)"])
         (fun v => Ok (set scenario_fields "change" v))
  /\ _extract_by_patterns scenario_text ["Change\s*Due:\s*\$(\d+)"]
     = Ok (Some "5"%string).
Proof.
  assert (H1 : wf Main.parser) by nodup.
  assert (H2 : extract_fields Main.parser scenario_text = Ok scenario_fields)
    by run.
  repeat (split; [assumption|]).
  split; [|run].
  exact (extract_after_add_field Main.parser scenario_text "change"
           ["Change\s*Due:\s*\$(\d+)"] scenario_fields H1 H2).
Defined.

Lemma field_independence_witness :
  wf Main.parser
  /\ wf [("date", ["(\d{1,2}[-/]\d{1,2}[-/]\d{2,4})";
                   "(\d{4}[-/]\d{1,2}[-/]\d{1,2})"])]
  /\ extract_fields Main.parser scenario_text = Ok scenario_fields
  /\ extract_fields
       [("date", ["(\d{1,2}[-/]\d{1,2}[-/]\d{2,4})";
                  "(\d{4}[-/]\d{1,2}[-/]\d{1,2})"])] scenario_text
     = Ok [("date", Some "25-07-15")]
  /\ get scenario_fields "date" = get [("date", Some "25-07-15")] "date".
Proof.
  assert (H1 : wf Main.parser) by nodup.
  assert (H2 : wf [("date", ["(\d{1,2}[-/]\d{1,2}[-/]\d{2,4})";
                             "(\d{4}[-/]\d{1,2}[-/]\d{1,2})"])]) by nodup.
  assert (H3 : extract_fields Main.parser scenario_text = Ok scenario_fields)
    by run.
  assert (H4 : extract_fields
                 [("date", ["(\d{1,2}[-/]\d{1,2}[-/]\d{2,4})";
                            "(\d{4}[-/]\d{1,2}[-/]\d{1,2})"])] scenario_text
               = Ok [("date", Some "25-07-15")]) by run.
  repeat (split; [assumption|]).
  exact (field_independence Main.parser _ scenario_text "date" _ _ _
           H1 H2 eq_refl eq_refl H3 H4).
Defined.

Lemma first_error_decides_witness :
  (forall f' ps', In (f', ps') default_patterns ->
                  exists v, _extract_by_patterns "abc" ps' = Ok v)
  /\ _extract_by_patterns "abc" ["abc"] = Raise IndexError
  /\ extract_fields
       (default_patterns ++ ("ref", ["abc"]) :: [("late", ["("])]) "abc"
     = Raise IndexError.
Proof.
  assert (H1 : forall f' ps', In (f', ps') default_patterns ->
                              exists v, _extract_by_patterns "abc" ps' = Ok v).
  { intros f' ps' [H|[H|[H|[]]]]; inversion H; subst; exists None; run. }
  assert (H2 : _extract_by_patterns "abc" ["abc"] = Raise IndexError) by run.
  repeat (split; [assumption|]).
  exact (first_error_decides default_patterns "ref" ["abc"]
           [("late", ["("])] "abc" IndexError H1 H2).
Defined.

Lemma values_are_trimmed_witness :
  extract_fields Main.parser scenario_text = Ok scenario_fields
  /\ In ("total"%string, Some "123.45"%string) scenario_fields
  /\ trimmed "123.45".
Proof.
  assert (H1 : extract_fields Main.parser scenario_text = Ok scenario_fields)
    by run.
  assert (H2 : In ("total"%string, Some "123.45"%string) scenario_fields)
    by (simpl; auto).
  repeat (split; [assumption|]).
  exact (values_are_trimmed Main.parser scenario_text scenario_fields
           "total" "123.45" H1 H2).
Defined.

Lemma two_group_integer_part_witness :
  Forall (fails "Total: $ 1,234 , 56 .") []
  /\ re_search "total\s*[:\-]?\s*\$?\s*([\d,]+)\s*[.,]\s*(\d{2})"
       "Total: $ 1,234 , 56 ." = Match [Some "1,234"; Some "56"]
  /\ exists a b,
       _extract_by_patterns "Total: $ 1,234 , 56 ."
         ([] ++ "total\s*[:\-]?\s*\$?\s*([\d,]+)\s*[.,]\s*(\d{2})" :: [])
       = Ok (Some (a ++ "." ++ b)%string)
       /\ has_char "," a = false
       /\ trimmed a /\ trimmed b.
Proof.
  assert (H2 : re_search "total\s*[:\-]?\s*\$?\s*([\d,]+)\s*[.,]\s*(\d{2})"
                 "Total: $ 1,234 , 56 ." = Match [Some "1,234"; Some "56"])
    by run.
  split; [constructor|]. split; [assumption|].
  exact (two_group_integer_part "Total: $ 1,234 , 56 ." []
           "total\s*[:\-]?\s*\$?\s*([\d,]+)\s*[.,]\s*(\d{2})" []
           "1,234" "56" (Forall_nil _) H2).
Defined.

End ExtractorOnEngine.

(** ** The normaliser, further *)

Section NormaliserExtras.
Import Cv2 ImagePreprocessor.
Local Open Scope Z_scope.

Lemma resize_source image W out :
  _resize image W = Ok out -> 0 < width image /\ 0 < height image.
Proof.
  unfold _resize.
  destruct (PyFloat.truediv W (width image)) as [ratio|]; simpl; [|discriminate].
  destruct (PyFloat.to_int (PyFloat.mul_int (height image) ratio)) as [n|];
    simpl; [|discriminate].
  unfold resize, empty.
  destruct (fits_int W && fits_int n); simpl; [|discriminate].
  destruct (Z.leb_spec (width image) 0); simpl; [discriminate|].
  destruct (Z.leb_spec (height image) 0); simpl; [discriminate|].
  lia.
Qed.

Lemma color_pipeline_ok img out :
  bind (cvtColor_BGR2GRAY img)
    (fun gray =>
       bind (GaussianBlur_5x5 gray)
         (fun denoised =>
            bind (adaptiveThreshold_11_2 denoised)
              (fun binary => Ok binary))) = Ok out ->
  (channels img = 3 \/ channels img = 4)
  /\ 0 < width img /\ 0 < height img
  /\ out = binary_of (height img) (width img).
Proof.
  unfold cvtColor_BGR2GRAY, GaussianBlur_5x5, adaptiveThreshold_11_2, empty.
  destruct (Z.leb_spec (width img) 0); simpl; [discriminate|].
  destruct (Z.leb_spec (height img) 0); simpl; [discriminate|].
  destruct (Z.eqb_spec (channels img) 3) as [H3|H3]; simpl.
  - destruct (Z.leb_spec (width img) 0); simpl; [lia|].
    destruct (Z.leb_spec (height img) 0); simpl; [lia|].
    intros Hout. inversion Hout. auto.
  - destruct (Z.eqb_spec (channels img) 4) as [H4|H4]; simpl; [|discriminate].
    destruct (Z.leb_spec (width img) 0); simpl; [lia|].
    destruct (Z.leb_spec (height img) 0); simpl; [lia|].
    intros Hout. inversion Hout. auto.
Qed.

Lemma preprocess_ok imread resize_width input out :
  preprocess imread resize_width input = Ok out ->
  exists img,
    load_image imread input = Ok img
    /\ (channels img = 3 \/ channels img = 4)
    /\ channels out = 1 /\ 0 < width out /\ 0 < height out
    /\ (forall W, resize_width = Some W -> W <> 0 -> 0 < W /\ width out = W)
    /\ (resize_width = None \/ resize_width = Some 0 ->
        width out = width img /\ height out = height img).
Proof.
  unfold preprocess.
  destruct (load_image imread input) as [img|] eqn:Hload; simpl;
    [|discriminate].
  intros H. exists img. split; [reflexivity|].
  destruct resize_width as [V|]; [destruct (Z.eqb_spec V 0) as [HV|HV]|].
  - subst V. simpl in H. apply color_pipeline_ok in H.
    destruct H as (Hc & Hw & Hh & ->). simpl.
    split; [exact Hc|]. split; [reflexivity|].
    split; [exact Hw|]. split; [exact Hh|]. split.
    + intros W0 HW0 Hne. inversion HW0. congruence.
    + auto.
  - destruct (_resize img V) as [img'|] eqn:Hr; simpl in H; [|discriminate].
    apply color_pipeline_ok in H. destruct H as (Hc & Hw & Hh & ->).
    destruct (resize_ok _ _ _ Hr) as (HWpos & _ & Hw' & Hc' & _). simpl.
    split; [now rewrite <- Hc'|]. split; [reflexivity|].
    split; [exact Hw|]. split; [exact Hh|]. split.
    + intros W0 HW0 _. inversion HW0; subst W0. auto.
    + intros [H|H]; [discriminate|inversion H; contradiction].
  - simpl in H. apply color_pipeline_ok in H.
    destruct H as (Hc & Hw & Hh & ->). simpl.
    split; [exact Hc|]. split; [reflexivity|].
    split; [exact Hw|]. split; [exact Hh|]. split.
    + intros W0 HW0. discriminate.
    + auto.
Qed.

(** What [preprocess] returns, for any input and any setting: a
    single-channel image that is not empty, as wide as the configured
    width when one is set, and of the size of its input when none is;
    and its input had three or four channels. *)
Theorem preprocess_output imread resize_width input out :
  preprocess imread resize_width input = Ok out ->
  exists img,
    load_image imread input = Ok img
    /\ (channels img = 3 \/ channels img = 4)
    /\ channels out = 1 /\ 0 < width out /\ 0 < height out
    /\ (forall W, resize_width = Some W -> W <> 0 -> 0 < W /\ width out = W)
    /\ (resize_width = None \/ resize_width = Some 0 ->
        width out = width img /\ height out = height img).
Proof. apply preprocess_ok. Qed.

(** [preprocess] cannot be applied twice: what it returns has one
    channel, and an image of one channel is always rejected, whatever the
    resize width. *)
Theorem preprocess_not_twice imread rw1 rw2 input out :
  preprocess imread rw1 input = Ok out ->
  forall out2, preprocess imread rw2 (Array out) <> Ok out2.
Proof.
  intros H1 out2 H2.
  destruct (preprocess_ok _ _ _ _ H1) as (_ & _ & _ & Hc & _).
  destruct (preprocess_ok _ _ _ _ H2) as (img & Hload & Hch & _).
  simpl in Hload. inversion Hload; subst img. lia.
Qed.

(** The failures of the resize.  On an image of width 0 it raises
    [ZeroDivisionError], whatever the target; and it never returns for a
    target width that is not positive or an image with no rows, nor
    returns an image with no rows. *)
Theorem resize_failures image W :
  (width image = 0 -> _resize image W = Raise ZeroDivisionError)
  /\ (forall out,
        _resize image W = Ok out ->
        0 < W /\ 0 < width image /\ 0 < height image /\ 0 < height out
        /\ channels out = channels image).
Proof.
  split.
  - intros Hw. unfold _resize, PyFloat.truediv. rewrite Hw. reflexivity.
  - intros out Hr.
    destruct (resize_ok _ _ _ Hr) as (HW & Hh & _ & Hc & _).
    destruct (resize_source _ _ _ Hr) as (Hw' & Hh').
    auto.
Qed.

Lemma preprocess_output_witness :
  preprocess (fun _ => None) Main.preprocessor
    (Array {| height := 600; width := 1000; channels := 3 |})
  = Ok (binary_of 480 800)
  /\ exists img,
       load_image (fun _ => None)
         (Array {| height := 600; width := 1000; channels := 3 |}) = Ok img
       /\ (channels img = 3 \/ channels img = 4)
       /\ channels (binary_of 480 800) = 1
       /\ 0 < width (binary_of 480 800) /\ 0 < height (binary_of 480 800)
       /\ (forall W, Main.preprocessor = Some W -> W <> 0 ->
                     0 < W /\ width (binary_of 480 800) = W)
       /\ (Main.preprocessor = None \/ Main.preprocessor = Some 0 ->
           width (binary_of 480 800) = width img
           /\ height (binary_of 480 800) = height img).
Proof.
  assert (H : preprocess (fun _ => None) Main.preprocessor
                (Array {| height := 600; width := 1000; channels := 3 |})
              = Ok (binary_of 480 800)) by (vm_compute; reflexivity).
  split; [exact H|].
  exact (preprocess_output _ _ _ _ H).
Defined.

Lemma preprocess_not_twice_witness :
  preprocess (fun _ => None) Main.preprocessor
    (Array {| height := 600; width := 1000; channels := 3 |})
  = Ok (binary_of 480 800)
  /\ forall out2,
       preprocess (fun _ => None) None (Array (binary_of 480 800)) <> Ok out2.
Proof.
  assert (H : preprocess (fun _ => None) Main.preprocessor
                (Array {| height := 600; width := 1000; channels := 3 |})
              = Ok (binary_of 480 800)) by (vm_compute; reflexivity).
  split; [exact H|].
  exact (preprocess_not_twice _ _ None _ _ H).
Defined.

End NormaliserExtras.

(** ** The OCR engine: the boxes *)

Section BoxesFacts.
Import Py.
Variable imread : string -> option Cv2.ndarray.
Variable image_to_data :
  Cv2.ndarray -> string -> string -> outcome (PyDict.dict (list value)).
Variable int_of_str : string -> option Z.

Local Abbreviation boxes_loop := (OCREngine.boxes_loop int_of_str).
Local Abbreviation entry := (OCREngine.entry int_of_str).
Local Abbreviation extract_with_boxes :=
  (OCREngine.extract_with_boxes imread image_to_data int_of_str).

Lemma nth_error_middle {A B : Type} (f : A -> B) pre a suf :
  nth_error (map f (pre ++ a :: suf)) (length pre) = Some (f a).
Proof.
  rewrite map_app. rewrite nth_error_app2 by (rewrite length_map; lia).
  rewrite length_map, Nat.sub_diag. reflexivity.
Qed.

Lemma int_cell_of_table data column (f : row -> Z) pre r suf :
  PyDict.get data column = Some (map (fun r => VInt (f r)) (pre ++ r :: suf)) ->
  OCREngine.int_cell int_of_str data column (length pre) = Return (f r).
Proof.
  intros Hcol. unfold OCREngine.int_cell, getitem, index. rewrite Hcol. simpl.
  rewrite (nth_error_middle (fun r => VInt (f r))). reflexivity.
Qed.

Lemma entry_of_table data pre r suf :
  is_table data (pre ++ r :: suf) ->
  entry data (length pre) = Return (token_of_row r).
Proof.
  intros (Ht & Hc & Hl & Hp & Hw & Hh).
  unfold OCREngine.entry, getitem, index. rewrite Ht. simpl.
  rewrite (nth_error_middle (fun r => VStr (row_text r))). simpl.
  rewrite (int_cell_of_table data "conf" row_conf pre r suf Hc). simpl.
  rewrite (int_cell_of_table data "left" row_left pre r suf Hl). simpl.
  rewrite (int_cell_of_table data "top" row_top pre r suf Hp). simpl.
  rewrite (int_cell_of_table data "width" row_width pre r suf Hw). simpl.
  rewrite (int_cell_of_table data "height" row_height pre r suf Hh). simpl.
  reflexivity.
Qed.

Lemma boxes_loop_of_table data rows :
  is_table data rows ->
  forall suf pre acc,
    rows = pre ++ suf ->
    boxes_loop data (seq (length pre) (length suf)) acc
    = Return (acc ++ map token_of_row (filter printed suf)).
Proof.
  intros Htab. induction suf as [|r suf IH]; intros pre acc Hrows.
  - simpl. now rewrite app_nil_r.
  - subst rows. cbn [length seq OCREngine.boxes_loop].
    pose proof Htab as (Ht & _).
    unfold getitem at 1. rewrite Ht. cbn [obind].
    unfold index at 1.
    rewrite (nth_error_middle (fun r => VStr (row_text r))). cbn [obind strip].
    assert (Hnext : forall acc',
               boxes_loop data (seq (S (length pre)) (length suf)) acc'
               = Return (acc' ++ map token_of_row (filter printed suf))).
    { intros acc'.
      replace (S (length pre)) with (length (pre ++ [r]))
        by (rewrite length_app; simpl; lia).
      apply IH. now rewrite <- app_assoc. }
    cbn [filter]. unfold printed at 1.
    destruct (blank (row_text r)) eqn:Hb; cbn [negb].
    + rewrite (proj2 (strip_empty_blank _) Hb). apply Hnext.
    + destruct (PyStr.strip (row_text r)) eqn:Hs.
      * apply strip_empty_blank in Hs. congruence.
      * rewrite (entry_of_table data pre r suf Htab). cbn [obind].
        rewrite Hnext. cbn [map]. now rewrite <- app_assoc.
Qed.

(** On a table of rows [extract_with_boxes] returns the rows that have
    something to read in them, in the order of the table, one entry per
    row with the numbers of the row; the text of an entry is the text of
    the row as it is, not trimmed. *)
Theorem boxes_of_table self image data rows :
  image_to_data image (OCREngine.lang self) (OCREngine.config self)
  = Return data ->
  is_table data rows ->
  extract_with_boxes self (ImagePreprocessor.Array image)
  = Return (map token_of_row (filter printed rows)).
Proof.
  intros Hdata Htab. unfold OCREngine.extract_with_boxes. simpl.
  rewrite Hdata. simpl. pose proof Htab as (Ht & _).
  unfold getitem. rewrite Ht. simpl. rewrite length_map.
  apply (boxes_loop_of_table data rows Htab rows [] [] eq_refl).
Qed.

Lemma entry_text data i e :
  entry data i = Return e ->
  exists col, PyDict.get data "text" = Some col
              /\ nth_error col i = Some (OCREngine.text e).
Proof.
  unfold OCREngine.entry, getitem, index.
  destruct (PyDict.get data "text") as [col|] eqn:Hcol; simpl; [|discriminate].
  destruct (nth_error col i) as [t|] eqn:Ht; simpl; [|discriminate].
  destruct (OCREngine.int_cell int_of_str data "conf" i); simpl; [|discriminate].
  destruct (OCREngine.int_cell int_of_str data "left" i); simpl; [|discriminate].
  destruct (OCREngine.int_cell int_of_str data "top" i); simpl; [|discriminate].
  destruct (OCREngine.int_cell int_of_str data "width" i); simpl; [|discriminate].
  destruct (OCREngine.int_cell int_of_str data "height" i); simpl; [|discriminate].
  intros H. inversion H; subst. simpl. exists col. now split.
Qed.

Lemma boxes_loop_legible data indices :
  forall acc tokens,
    boxes_loop data indices acc = Return tokens ->
    Forall legible acc ->
    Forall legible tokens
    /\ (length tokens <= length acc + length indices)%nat.
Proof.
  induction indices as [|i rest IH]; intros acc tokens H Hacc.
  - simpl in H. inversion H; subst. split; [assumption|lia].
  - cbn [OCREngine.boxes_loop] in H. unfold getitem at 1 in H.
    unfold index at 1 in H.
    destruct (PyDict.get data "text") as [col|] eqn:Hcol; simpl in H;
      [|discriminate].
    destruct (nth_error col i) as [t|] eqn:Ht; simpl in H; [|discriminate].
    destruct t as [s0| |]; simpl in H; try discriminate.
    destruct (PyStr.strip s0) eqn:Hs.
    + destruct (IH _ _ H Hacc) as (Hl & Hn). split; [assumption|simpl; lia].
    + destruct (entry data i) as [e|] eqn:He; simpl in H; [|discriminate].
      destruct (entry_text _ _ _ He) as (col' & Hcol' & Hti).
      rewrite Hcol in Hcol'. inversion Hcol'; subst col'.
      rewrite Ht in Hti. inversion Hti as [Hte].
      assert (Hleg : legible e).
      { exists s0. split; [now symmetry|].
        destruct (blank s0) eqn:Hb; [|reflexivity].
        apply strip_empty_blank in Hb. congruence. }
      destruct (IH _ _ H) as (Hl & Hn).
      * apply Forall_app. split; [assumption|]. now constructor.
      * split; [assumption|]. rewrite length_app in Hn. simpl in *. lia.
Qed.

(** Whatever the table holds, an entry that is returned has a string for
    its text with something to read in it, and there are no more entries
    than rows. *)
Theorem boxes_are_legible self image data tokens :
  image_to_data image (OCREngine.lang self) (OCREngine.config self)
  = Return data ->
  extract_with_boxes self (ImagePreprocessor.Array image) = Return tokens ->
  Forall legible tokens
  /\ exists col,
       PyDict.get data "text" = Some col
       /\ (length tokens <= length col)%nat.
Proof.
  intros Hdata. unfold OCREngine.extract_with_boxes. simpl.
  rewrite Hdata. simpl. unfold getitem.
  destruct (PyDict.get data "text") as [col|]; simpl; [|discriminate].
  intros H. destruct (boxes_loop_legible _ _ _ _ H (Forall_nil _)) as (Hl & Hn).
  rewrite length_seq in Hn. split; [assumption|]. exists col. now split.
Qed.

Lemma boxes_loop_blank data texts :
  PyDict.get data "text" = Some (map VStr texts) ->
  forallb blank texts = true ->
  forall suf pre acc,
    texts = pre ++ suf ->
    boxes_loop data (seq (length pre) (length suf)) acc = Return acc.
Proof.
  intros Hcol Hblank. induction suf as [|t suf IH]; intros pre acc Htexts.
  - reflexivity.
  - cbn [length seq OCREngine.boxes_loop].
    unfold getitem at 1. rewrite Hcol. cbn [obind]. unfold index at 1.
    rewrite Htexts, (nth_error_middle VStr). cbn [obind strip].
    assert (Ht : blank t = true).
    { rewrite forallb_forall in Hblank. apply Hblank. subst texts.
      apply in_or_app. right. now left. }
    rewrite (proj2 (strip_empty_blank _) Ht).
    replace (S (length pre)) with (length (pre ++ [t]))
      by (rewrite length_app; simpl; lia).
    apply IH. subst texts. now rewrite <- app_assoc.
Qed.

(** The edges of the table.  With no column "text" (the dictionary
    pytesseract gives for an output without rows) the call raises
    [KeyError]; with a column "text" of blank strings only it returns the
    empty list and the other columns are not read: they may be short or
    missing. *)
Theorem boxes_of_nothing self image data :
  image_to_data image (OCREngine.lang self) (OCREngine.config self)
  = Return data ->
  (PyDict.get data "text" = None ->
   extract_with_boxes self (ImagePreprocessor.Array image) = Throw KeyError)
  /\ (forall texts,
        PyDict.get data "text" = Some (map VStr texts) ->
        forallb blank texts = true ->
        extract_with_boxes self (ImagePreprocessor.Array image) = Return []).
Proof.
  intros Hdata. unfold OCREngine.extract_with_boxes. simpl.
  rewrite Hdata. simpl. unfold getitem. split.
  - now intros ->.
  - intros texts Hcol Hblank. rewrite Hcol. simpl. rewrite length_map.
    apply (boxes_loop_blank data texts Hcol Hblank texts [] [] eq_refl).
Qed.

End BoxesFacts.

Section BoxesWitnesses.
Import Py.

Lemma boxes_of_table_witness :
  is_table sample_data sample_rows
  /\ OCREngine.extract_with_boxes (fun _ => None)
       (fun _ _ _ => Return sample_data) (fun _ => None)
       Endpoint.ocr_engine (ImagePreprocessor.Array sample_page)
     = Return (map token_of_row (filter printed sample_rows))
  /\ length (filter printed sample_rows) = 2%nat.
Proof.
  assert (H : is_table sample_data sample_rows)
    by (repeat split; reflexivity).
  split; [exact H|]. split; [|reflexivity].
  exact (boxes_of_table (fun _ => None) (fun _ _ _ => Return sample_data)
           (fun _ => None) Endpoint.ocr_engine sample_page sample_data
           sample_rows eq_refl H).
Defined.

Lemma boxes_are_legible_witness :
  OCREngine.extract_with_boxes (fun _ => None)
    (fun _ _ _ => Return sample_data) (fun _ => None)
    Endpoint.ocr_engine (ImagePreprocessor.Array sample_page)
  = Return (map token_of_row (filter printed sample_rows))
  /\ Forall legible (map token_of_row (filter printed sample_rows))
  /\ exists col,
       PyDict.get sample_data "text" = Some col
       /\ (length (map token_of_row (filter printed sample_rows))
           <= length col)%nat.
Proof.
  assert (H : OCREngine.extract_with_boxes (fun _ => None)
                (fun _ _ _ => Return sample_data) (fun _ => None)
                Endpoint.ocr_engine (ImagePreprocessor.Array sample_page)
              = Return (map token_of_row (filter printed sample_rows)))
    by (vm_compute; reflexivity).
  split; [exact H|].
  exact (boxes_are_legible (fun _ => None) (fun _ _ _ => Return sample_data)
           (fun _ => None) Endpoint.ocr_engine sample_page sample_data _
           eq_refl H).
Defined.

Lemma boxes_of_nothing_witness :
  (PyDict.get [("text", [VStr " "; VStr ""])] "text" = None ->
   OCREngine.extract_with_boxes (fun _ => None)
     (fun _ _ _ => Return [("text", [VStr " "; VStr ""])]) (fun _ => None)
     Endpoint.ocr_engine (ImagePreprocessor.Array sample_page)
   = Throw KeyError)
  /\ (forall texts,
        PyDict.get [("text", [VStr " "; VStr ""])] "text"
        = Some (map VStr texts) ->
        forallb blank texts = true ->
        OCREngine.extract_with_boxes (fun _ => None)
          (fun _ _ _ => Return [("text", [VStr " "; VStr ""])]) (fun _ => None)
          Endpoint.ocr_engine (ImagePreprocessor.Array sample_page)
        = Return []).
Proof.
  exact (boxes_of_nothing (fun _ => None)
           (fun _ _ _ => Return [("text", [VStr " "%string; VStr ""%string])])
           (fun _ => None) Endpoint.ocr_engine sample_page
           [("text", [VStr " "; VStr ""])]%string eq_refl).
Defined.

End BoxesWitnesses.

(** ** The decoder and the endpoint *)

Section EndpointFacts.
Import Py Endpoint.
Context {E : RegexEngine}.
Variable convert_from_bytes : string -> outcome (list Cv2.ndarray).
Variable imread_upload : string -> outcome (option Cv2.ndarray).
Variable imread : string -> option Cv2.ndarray.
Variable image_to_string : Cv2.ndarray -> string -> string -> outcome string.

Local Abbreviation read_image :=
  (Endpoint.read_image convert_from_bytes imread_upload).
Local Abbreviation extract :=
  (Endpoint.extract convert_from_bytes imread_upload imread image_to_string).

Lemma reraise_return {A : Type} code (body : outcome A) a :
  reraise_as code body = Return a <-> body = Return a.
Proof. destruct body; simpl; split; congruence. Qed.

Lemma reraise_throw {A : Type} code (body : outcome A) e :
  reraise_as code body = Throw e -> e = HTTPException code.
Proof. destruct body; simpl; congruence. Qed.

Lemma endswith_suffix a b : endswith (a ++ b)%string b = true.
Proof.
  induction a as [|c a IH]; simpl.
  - destruct b; simpl; [reflexivity|].
    now rewrite Ascii.eqb_refl, String.eqb_refl.
  - rewrite IH. apply orb_true_r.
Qed.

(** When the decoder returns, and what it raises.  It returns an image
    exactly when the upload has a name and either the name ends in ".pdf",
    in any letter case, the rasteriser gives at least one page and the
    first page has three or four channels (the image is that page with
    three channels; the other pages are dropped), or the name does not
    end so and the image reader can read the bytes.  In every other case
    it raises an [HTTPException] with status 400, and nothing else. *)
Theorem read_image_outcome file :
  (forall img,
      read_image file = Return img <->
      exists name,
        filename file = Some name
        /\ ((endswith (str_lower name) ".pdf" = true
             /\ exists page rest,
                  convert_from_bytes (content file) = Return (page :: rest)
                  /\ cvtColor_RGB2BGR page = Ok img)
            \/ (endswith (str_lower name) ".pdf" = false
                /\ imread_upload (content file) = Return (Some img))))
  /\ (forall e, read_image file = Throw e -> e = HTTPException 400).
Proof.
  split; [|intros e; apply reraise_throw].
  intros img. unfold Endpoint.read_image. rewrite reraise_return.
  destruct (filename file) as [name|]; simpl.
  - destruct (endswith (str_lower name) ".pdf") eqn:Hpdf.
    + destruct (convert_from_bytes (content file)) as [[|page rest]|e];
        simpl.
      * split; [discriminate|].
        intros (n & Hn & [(_ & p & r & Hp & _)|(Hf & _)]); congruence.
      * split.
        -- intros H. exists name. split; [reflexivity|]. left.
           split; [exact Hpdf|]. exists page, rest. split; [reflexivity|].
           destruct (cvtColor_RGB2BGR page); simpl in H; congruence.
        -- intros (n & Hn & [(_ & p & r & Hp & Hc)|(Hf & _)]);
             [|inversion Hn; subst; congruence].
           inversion Hp; subst. now rewrite Hc.
      * split; [discriminate|].
        intros (n & Hn & [(_ & p & r & Hp & _)|(Hf & _)]);
          [congruence|inversion Hn; subst; congruence].
    + destruct (imread_upload (content file)) as [[img0|]|e]; simpl.
      * split.
        -- intros H. inversion H; subst. exists name. auto.
        -- intros (n & Hn & [(Ht & _)|(_ & Hi)]);
             [inversion Hn; subst; congruence|].
           now inversion Hi.
      * split; [discriminate|].
        intros (n & Hn & [(Ht & _)|(_ & Hi)]);
          [inversion Hn; subst; congruence|discriminate].
      * split; [discriminate|].
        intros (n & Hn & [(Ht & _)|(_ & Hi)]);
          [inversion Hn; subst; congruence|discriminate].
  - split; [discriminate|]. intros (n & Hn & _). discriminate.
Qed.

(** The extension decides, in any letter case: an upload whose name ends
    in an extension that lowers to ".pdf" is decoded as a PDF and the
    image reader is not consulted; the image it gives has three
    channels and the size of the first page. *)
Theorem pdf_by_extension stem ext bytes img :
  str_lower ext = ".pdf"%string ->
  read_image {| filename := Some (stem ++ ext)%string; content := bytes |}
  = Return img ->
  exists page rest,
    convert_from_bytes bytes = Return (page :: rest)
    /\ (Cv2.channels page = 3 \/ Cv2.channels page = 4)%Z
    /\ img = {| Cv2.height := Cv2.height page; Cv2.width := Cv2.width page;
                Cv2.channels := 3 |}.
Proof.
  intros Hext. unfold Endpoint.read_image. rewrite reraise_return. simpl.
  rewrite append_lower, Hext, endswith_suffix.
  destruct (convert_from_bytes bytes) as [[|page rest]|e]; simpl;
    try discriminate.
  unfold cvtColor_RGB2BGR.
  destruct (Cv2.empty (Cv2.width page) (Cv2.height page)); simpl;
    [discriminate|].
  destruct (Z.eqb_spec (Cv2.channels page) 3) as [H3|H3]; simpl.
  - intros H. inversion H. exists page, rest. auto.
  - destruct (Z.eqb_spec (Cv2.channels page) 4) as [H4|H4]; simpl;
      [|discriminate].
    intros H. inversion H. exists page, rest. auto.
Qed.

(** The endpoint reports every failure with status 500: an exception of
    any stage, and also the status 400 of the decoder, which is raised
    inside the handler's own [try] and caught there. *)
Theorem endpoint_failures file :
  (forall e, extract file = Throw e -> e = HTTPException 500)
  /\ (forall e, read_image file = Throw e ->
                extract file = Throw (HTTPException 500)).
Proof.
  split.
  - intros e. apply reraise_throw.
  - intros e He. unfold Endpoint.extract. now rewrite He.
Qed.

Lemma extract_return file resp :
  extract file = Return resp <->
  exists image pre,
    read_image file = Return image
    /\ ImagePreprocessor.preprocess imread Main.preprocessor
         (ImagePreprocessor.Array image) = Ok pre
    /\ image_to_string pre "eng" "--oem 3 --psm 6" = Return (r_raw_text resp)
    /\ LayoutParser.extract_fields Main.parser (r_raw_text resp)
       = Ok (r_fields resp)
    /\ r_filename resp = filename file.
Proof.
  unfold Endpoint.extract. rewrite reraise_return.
  destruct (Endpoint.read_image convert_from_bytes imread_upload file)
    as [image|e]; simpl.
  - destruct (ImagePreprocessor.preprocess imread Main.preprocessor
                (ImagePreprocessor.Array image)) as [pre|e] eqn:Hpre; simpl.
    + change (OCREngine.extract_text imread image_to_string ocr_engine
                (ImagePreprocessor.Array pre))
        with (image_to_string pre "eng" "--oem 3 --psm 6").
      destruct (image_to_string pre "eng" "--oem 3 --psm 6") as [text|e]
        eqn:Hocr; simpl.
      * destruct (LayoutParser.extract_fields Main.parser text) as [r|e]
          eqn:Hr; simpl.
        -- split.
           ++ intros H. inversion H; subst; simpl. exists image, pre.
              simpl. repeat split; assumption.
           ++ intros (i & p0 & Hi & Hp & Ht & Hf & Hn).
              inversion Hi; subst i. rewrite Hpre in Hp.
              inversion Hp; subst p0.
              rewrite Hocr in Ht. inversion Ht as [Htext].
              rewrite <- Htext, Hr in Hf. inversion Hf as [Hfields].
              destruct resp; simpl in *. congruence.
        -- split; [discriminate|].
           intros (i & p0 & Hi & Hp & Ht & Hf & Hn).
           inversion Hi; subst i. rewrite Hpre in Hp. inversion Hp; subst p0.
           rewrite Hocr in Ht. inversion Ht as [Htext].
           rewrite <- Htext, Hr in Hf. discriminate.
      * split; [discriminate|].
        intros (i & p0 & Hi & Hp & Ht & _).
        inversion Hi; subst i. rewrite Hpre in Hp. inversion Hp; subst p0.
        rewrite Hocr in Ht. discriminate.
    + split; [discriminate|].
      intros (i & p0 & Hi & Hp & _).
      inversion Hi; subst i. rewrite Hpre in Hp. discriminate.
  - split; [discriminate|]. intros (i & p0 & Hi & _). discriminate.
Qed.

(** What a response holds: the name of the upload, the text the engine
    read from the normalised image, which is single-channel and 800 wide,
    and the fields extracted from that very text, whose keys are those of
    the receipt schema. *)
Theorem endpoint_response file resp :
  extract file = Return resp ->
  exists image pre,
    read_image file = Return image
    /\ ImagePreprocessor.preprocess imread Main.preprocessor
         (ImagePreprocessor.Array image) = Ok pre
    /\ Cv2.width pre = 800%Z /\ Cv2.channels pre = 1%Z
    /\ image_to_string pre "eng" "--oem 3 --psm 6" = Return (r_raw_text resp)
    /\ LayoutParser.extract_fields Main.parser (r_raw_text resp)
       = Ok (r_fields resp)
    /\ PyDict.keys (r_fields resp) = ["id"; "date"; "total"; "change"]%string
    /\ r_filename resp = filename file.
Proof.
  intros H. apply extract_return in H.
  destruct H as (image & pre & Hi & Hp & Ht & Hf & Hn).
  exists image, pre.
  destruct (preprocess_ok _ _ _ _ Hp) as (_ & _ & _ & Hc & _ & _ & HW & _).
  destruct (HW 800%Z eq_refl) as [_ Hw]; [discriminate|].
  repeat (split; [assumption|]). split; [|exact Hn].
  assert (Hwf : PyDict.wf Main.parser).
  { unfold PyDict.wf. simpl. repeat constructor; simpl; intuition discriminate. }
  rewrite extract_fields_each in Hf by exact Hwf.
  now apply extract_each_keys in Hf.
Qed.

End EndpointFacts.

Section EndpointOnEngine.
Import Py Endpoint.
Existing Instance Sre.engine.
Variable convert_from_bytes : string -> outcome (list Cv2.ndarray).
Variable imread_upload : string -> outcome (option Cv2.ndarray).
Variable imread : string -> option Cv2.ndarray.
Variable image_to_string : Cv2.ndarray -> string -> string -> outcome string.

(** The endpoint answers exactly when the three stages before the
    extractor succeed: the upload decodes, the normaliser accepts the
    image, and the engine reads a text.  The extractor itself never makes
    a request fail. *)
Theorem endpoint_success file :
  (exists resp,
      Endpoint.extract convert_from_bytes imread_upload imread
        image_to_string file = Return resp)
  <->
  exists image pre text,
    Endpoint.read_image convert_from_bytes imread_upload file = Return image
    /\ ImagePreprocessor.preprocess imread Main.preprocessor
         (ImagePreprocessor.Array image) = Ok pre
    /\ image_to_string pre "eng" "--oem 3 --psm 6" = Return text.
Proof.
  split.
  - intros [resp H]. apply extract_return in H.
    destruct H as (image & pre & Hi & Hp & Ht & _).
    exists image, pre, (r_raw_text resp). auto.
  - intros (image & pre & text & Hi & Hp & Ht).
    destruct (safe_schema_returns Main.parser text eq_refl) as [r Hr].
    exists {| r_filename := filename file; r_fields := r;
              r_raw_text := text |}.
    apply extract_return. exists image, pre. simpl. auto.
Qed.

End EndpointOnEngine.

Section EndpointWitnesses.
Import Py Endpoint.

Lemma pdf_by_extension_witness :
  str_lower ".PDF" = ".pdf"%string
  /\ Endpoint.read_image (fun _ => Return [sample_photo; sample_page])
       (fun _ => Throw (LibraryError "OSError"))
       {| filename := Some ("Scan 01" ++ ".PDF")%string; content := "" |}
     = Return sample_photo
  /\ exists page rest,
       Return [sample_photo; sample_page] = Return (page :: rest)
       /\ (Cv2.channels page = 3 \/ Cv2.channels page = 4)%Z
       /\ sample_photo
          = {| Cv2.height := Cv2.height page; Cv2.width := Cv2.width page;
               Cv2.channels := 3 |}.
Proof.
  assert (H1 : str_lower ".PDF" = ".pdf"%string) by reflexivity.
  assert (H2 : Endpoint.read_image (fun _ => Return [sample_photo; sample_page])
                 (fun _ => Throw (LibraryError "OSError"))
                 {| filename := Some ("Scan 01" ++ ".PDF")%string;
                    content := "" |}
               = Return sample_photo) by (vm_compute; reflexivity).
  repeat (split; [assumption|]).
  exact (pdf_by_extension (fun _ => Return [sample_photo; sample_page])
           (fun _ => Throw (LibraryError "OSError"))
           "Scan 01" ".PDF" "" sample_photo H1 H2).
Defined.

Lemma endpoint_response_witness :
  @Endpoint.extract Sre.engine (fun _ => Return [])
    (fun _ => Return (Some sample_photo)) (fun _ => None)
    (fun _ _ _ => Return scenario_text) sample_upload
  = Return {| r_filename := Some "receipt.jpg"%string;
              r_fields := scenario_fields;
              r_raw_text := scenario_text |}
  /\ exists image pre,
       Endpoint.read_image (fun _ => Return [])
         (fun _ => Return (Some sample_photo)) sample_upload = Return image
       /\ ImagePreprocessor.preprocess (fun _ => None) Main.preprocessor
            (ImagePreprocessor.Array image) = Ok pre
       /\ Cv2.width pre = 800%Z /\ Cv2.channels pre = 1%Z
       /\ Return scenario_text = Return scenario_text
       /\ @LayoutParser.extract_fields Sre.engine Main.parser scenario_text
          = Ok scenario_fields
       /\ PyDict.keys scenario_fields = ["id"; "date"; "total"; "change"]%string
       /\ Some "receipt.jpg"%string = Endpoint.filename sample_upload.
Proof.
  assert (H : @Endpoint.extract Sre.engine (fun _ => Return [])
                (fun _ => Return (Some sample_photo)) (fun _ => None)
                (fun _ _ _ => Return scenario_text) sample_upload
              = Return {| r_filename := Some "receipt.jpg"%string;
                          r_fields := scenario_fields;
                          r_raw_text := scenario_text |})
    by (vm_compute; reflexivity).
  split; [exact H|].
  exact (@endpoint_response Sre.engine (fun _ => Return [])
           (fun _ => Return (Some sample_photo)) (fun _ => None)
           (fun _ _ _ => Return scenario_text) sample_upload _ H).
Defined.

End EndpointWitnesses.
